(** * Orders API: a shallow embedding of [OrdersService] and [ProductsService]

    The development follows [src/orders/orders.service.ts] and
    [src/products/products.service.ts].  The durable store (the Prisma
    tables), the in-process [recentOrders] map of the service and the
    pending [setTimeout] callbacks are explicit state; every service method
    is a function from a state to an outcome and a new state.

    Conventions.
    - JavaScript numbers that hold integers (quantities, prices in fils,
      stock, millisecond timestamps) are [Z]; the arithmetic of the service
      on them, and the decimal text a template literal gives them, are
      exact as long as the values are safe integers (below 2^53).
    - A table is a finite map keyed by the primary key [id], a UUID string.
      The items of an order are nested in their order; their own ids, the
      joined [user] of [findAll] and [findOne] and the [description] of a
      product are not part of the model.
    - [schema.prisma] is not among the sources.  Of its constraints the
      model has the primary keys and the unique title of a product.  It
      has neither the range of the integer columns nor the foreign key
      from an order to its user: where the database refuses a write for
      one of these, the program throws and rolls back and the model
      commits.  The writes of the program are therefore among those of
      the model, and equal to them.
    - The service methods are modelled one call at a time; calls that
      overlap are composed from the two halves of [create].
    - What the environment produces during a call ([Date.now()], the UUID
      and the [createdAt] the database chooses) is an input, gathered in
      [Env].
    - Logging is left out.

    The file has three parts: the model, the notions the statements use
    together with example data, and the lemmas and theorems. *)

From Stdlib Require Import ZArith Lia QArith.QArith_base.
From stdpp Require Import base gmap strings list fin_maps pretty sorting.

Local Open Scope Z_scope.

(** * The model *)

(** ** Data model *)

(** [OrderStatus] and [Role] of the Prisma client. *)
Inductive OrderStatus := PENDING | PAID | CANCELLED | FULFILLED.

Inductive Role := ADMIN | CUSTOMER.

#[global] Instance OrderStatus_eq_dec : EqDecision OrderStatus.
Proof. solve_decision. Defined.

#[global] Instance Role_eq_dec : EqDecision Role.
Proof. solve_decision. Defined.

(** A row of [product]; the key of the table is its [id]. *)
Record Product := mkProduct {
  title : string;
  priceFils : Z;
  stock : Z;
  isActive : bool
}.

(** A row of [orderItem], nested in its owning order. *)
Record OrderItem := mkOrderItem {
  item_productId : string;
  item_qty : Z;
  unitPriceFils : Z;
  lineTotalFils : Z
}.

(** A row of [order] with its items; the key of the table is its [id]. *)
Record Order := mkOrder {
  userId : string;
  status : OrderStatus;
  totalFils : Z;
  createdAt : Z;
  order_items : list OrderItem
}.

(** The value type of [recentOrders]. *)
Record CacheEntry := mkCacheEntry {
  timestamp : Z;
  orderId : string
}.

(** The state the service works on: two tables, the [recentOrders] map and
    the pending [setTimeout] callbacks, each a due time and the cache key
    its callback deletes. *)
Record State := mkState {
  products : gmap string Product;
  orders : gmap string Order;
  recentOrders : gmap string CacheEntry;
  timers : list (Z * string)
}.

Definition set_products (ps : gmap string Product) (st : State) : State :=
  mkState ps (orders st) (recentOrders st) (timers st).

Definition set_orders (os : gmap string Order) (st : State) : State :=
  mkState (products st) os (recentOrders st) (timers st).

(** ** What the callers pass *)

(** [OrderItemDto] and [CreateOrderDto] of [dto/create-order.dto.ts]; the
    list is there (the guard [!items] of [create] is for callers that pass
    none). *)
Record OrderItemDto := mkItemDto {
  productId : string;
  qty : Z
}.

Record CreateOrderDto := mkCreateOrderDto {
  items : list OrderItemDto
}.

(** [CreateProductDto] of [dto/create-product.dto.ts]; its description
    goes to a column the row of the model does not carry. *)
Record CreateProductDto := mkCreateProductDto {
  cp_title : string;
  cp_description : option string;
  cp_priceFils : Z;
  cp_stock : Z;
  cp_isActive : option bool
}.

(** [UpdateProductDto], the [data] of [product.update]: the columns of a
    row, each optional.  (Its file is not among the sources; a field that
    is [undefined] leaves the column as it is.) *)
Record UpdateProductDto := mkUpdateProductDto {
  up_title : option string;
  up_priceFils : option Z;
  up_stock : option Z;
  up_isActive : option bool
}.

(** [PaginationDto]: [page] and [limit], each optional. *)
Record PaginationDto := mkPagination {
  page : option Z;
  limit : option Z
}.

Record UpdateOrderStatusDto := mkUpdateStatus {
  new_status : OrderStatus
}.

(** [req.user]; [updateStatus] passes a user that has a role only. *)
Record AuthUser := mkUser {
  user_id : option string;
  user_role : Role
}.

(** What the environment supplies during one [create]. *)
Record Env := mkEnv {
  now_check : Z;      (* Date.now() of the idempotency check *)
  db_uuid : string;   (* id the database gives the new order *)
  db_now : Z;         (* createdAt the database gives the new order *)
  now_record : Z      (* Date.now() when the cache entry is written *)
}.

(** ** What the methods answer *)

(** Exceptions.  [ConflictException] is imported by the service;
    [PrismaError] stands for the known request errors of the Prisma client
    (P2002 unique constraint, P2025 record not found, P2009 query
    validation). *)
Inductive HttpException :=
| BadRequestException (message : string)
| NotFoundException (message : string)
| ConflictException (message : string)
| PrismaError (code : string).

#[global] Instance HttpException_eq_dec : EqDecision HttpException.
Proof. solve_decision. Defined.

(** A method returns a value or throws. *)
Inductive Outcome (A : Type) :=
| Returned (a : A)
| Threw (e : HttpException).
Arguments Returned {A} a.
Arguments Threw {A} e.

(** [product: { select: { id, title, priceFils } }]. *)
Record ProductSummary := mkSummary {
  ps_id : string;
  ps_title : string;
  ps_priceFils : Z
}.

(** An item as returned: the row and, when the query includes it, the
    selected product. *)
Record OrderItemView := mkItemView {
  iv_item : OrderItem;
  iv_product : option ProductSummary
}.

Record OrderView := mkOrderView {
  v_id : string;
  v_userId : string;
  v_status : OrderStatus;
  v_totalFils : Z;
  v_createdAt : Z;
  v_items : list OrderItemView
}.

(** The page returned by [findAll]: [data] and, of [meta], the three
    fields [page], [limit] and [total] the others are computed from. *)
Record OrderPage := mkPage {
  data : list OrderView;
  meta_page : Z;
  meta_limit : Z;
  meta_total : Z
}.

(** ** The Prisma queries the services issue *)

Definition summary_of (id : string) (p : Product) : ProductSummary :=
  mkSummary id (title p) (priceFils p).

(** [include: { items: true }] *)
Definition view_items_only (id : string) (o : Order) : OrderView :=
  mkOrderView id (userId o) (status o) (totalFils o) (createdAt o)
    (map (fun it => mkItemView it None) (order_items o)).

(** [include: { items: { include: { product: { select: ... } } } }] *)
Definition view_with_products (tbl : gmap string Product)
    (id : string) (o : Order) : OrderView :=
  mkOrderView id (userId o) (status o) (totalFils o) (createdAt o)
    (map (fun it =>
            mkItemView it (summary_of (item_productId it)
                             <$> tbl !! item_productId it))
         (order_items o)).

(** [data: { stock: { decrement: n } }] *)
Definition decrement (n : Z) (p : Product) : Product :=
  mkProduct (title p) (priceFils p) (stock p - n) (isActive p).

(** [data: { status }] *)
Definition with_status (s : OrderStatus) (o : Order) : Order :=
  mkOrder (userId o) s (totalFils o) (createdAt o) (order_items o).

(** [skip] and [take] of [findMany]: a negative [skip] is refused, a
    negative [take] counts from the end. *)
Definition window {A : Type} (skip take : Z) (l : list A)
    : HttpException + list A :=
  if skip <? 0 then inl (PrismaError "P2009")
  else if 0 <=? take then
    inr (firstn (Z.to_nat take) (skipn (Z.to_nat skip) l))
  else
    inr (reverse
           (firstn (Z.to_nat (- take))
              (skipn (Z.to_nat skip) (reverse l)))).

(** [orderBy: { createdAt: 'desc' }] *)
Definition newer_first (a b : string * Order) : Prop :=
  createdAt b.2 ≤ createdAt a.2.

#[global] Instance newer_first_dec a b : Decision (newer_first a b).
Proof. unfold newer_first. apply _. Defined.

(** ** [ProductsService] *)

Module ProductsService.

(** [findMany({ where: { id: { in: ids }, isActive: true } })]: the rows
    whose id occurs in [ids] and that are active, one per row. *)
Definition findByIds (ids : list string) (tbl : gmap string Product)
    : list (string * Product) :=
  map_to_list
    (filter (fun kp : string * Product =>
               kp.1 ∈ ids ∧ isActive kp.2 = true) tbl).

(** [title] is a unique column ([prisma/seed.ts] upserts products by it):
    a write that would give two rows one title is refused.  Some row
    other than [self] has the title [t]. *)
Definition title_taken (t : string) (self : option string)
    (tbl : gmap string Product) : bool :=
  existsb (fun kp : string * Product =>
             bool_decide (title kp.2 = t) &&
             negb (bool_decide (Some kp.1 = self)))
    (map_to_list tbl).

(** [create]: the new row under the id the database draws, active unless
    the request says otherwise. *)
Definition create (dto : CreateProductDto) (uuid : string) (st : State)
    : Outcome (string * Product) * State :=
  let row := mkProduct (cp_title dto) (cp_priceFils dto) (cp_stock dto)
               (default true (cp_isActive dto)) in
  match products st !! uuid with
  | Some _ => (Threw (PrismaError "P2002"), st)
  | None =>
      if title_taken (cp_title dto) None (products st) then
        (Threw (PrismaError "P2002"), st)
      else
        (Returned (uuid, row), set_products (<[uuid := row]> (products st)) st)
  end.

Definition product_not_found (id : string) : HttpException :=
  NotFoundException ("Product with ID " +:+ id +:+ " not found").

(** [findOne]: the row, active or not. *)
Definition findOne (id : string) (st : State) : Outcome Product :=
  match products st !! id with
  | Some p => Returned p
  | None => Threw (product_not_found id)
  end.

(** [data: updateProductDto] *)
Definition apply_update (dto : UpdateProductDto) (p : Product) : Product :=
  mkProduct (default (title p) (up_title dto))
    (default (priceFils p) (up_priceFils dto))
    (default (stock p) (up_stock dto))
    (default (isActive p) (up_isActive dto)).

(** [update]: [findOne] as the existence check, then [product.update]. *)
Definition update (id : string) (dto : UpdateProductDto) (st : State)
    : Outcome Product * State :=
  match findOne id st with
  | Threw e => (Threw e, st)
  | Returned _ =>
      match products st !! id with
      | None => (Threw (PrismaError "P2025"), st)
      | Some p =>
          if from_option (fun t => title_taken t (Some id) (products st))
               false (up_title dto)
          then (Threw (PrismaError "P2002"), st)
          else
            (Returned (apply_update dto p),
             set_products (<[id := apply_update dto p]> (products st)) st)
      end
  end.

End ProductsService.

(** ** [OrdersService] *)

Module OrdersService.

(** *** [create], lines 51 to 98: pricing and validation *)

(** The message of line 85.  [pretty] is the decimal numeral, which is
    what the template literal prints for a safe integer; beyond 2^53 the
    literal prints the shortest digits that identify the number, and from
    10^21 on in exponent form, which the model does not follow. *)
Definition insufficient_stock_message (p : Product) (requested : Z) : string :=
  "Insufficient stock for " +:+ title p +:+ ". Available: "
    +:+ pretty (stock p) +:+ ", Requested: " +:+ pretty requested.

(** The loop over [items], with its two accumulators [totalFils] and
    [orderItems]. *)
Fixpoint price_items (productMap : gmap string Product)
    (its : list OrderItemDto) (total : Z) (orderItems : list OrderItem)
    : HttpException + (Z * list OrderItem) :=
  match its with
  | [] => inr (total, orderItems)
  | item :: rest =>
      match productMap !! productId item with
      | None =>
          inl (BadRequestException
                 ("Product " +:+ productId item +:+ " not found"))
      | Some product =>
          if qty item <=? 0 then
            inl (BadRequestException "Quantity must be greater than 0")
          else if stock product <? qty item then
            inl (BadRequestException
                   (insufficient_stock_message product (qty item)))
          else
            let lineTotal := priceFils product * qty item in
            price_items productMap rest (total + lineTotal)
              (orderItems ++
                 [mkOrderItem (productId item) (qty item)
                    (priceFils product) lineTotal])
      end
  end.

(** The empty check, the catalog lookup, the length check and the loop. *)
Definition price_order (dto : CreateOrderDto) (tbl : gmap string Product)
    : HttpException + (Z * list OrderItem) :=
  match items dto with
  | [] => inl (BadRequestException "Order must contain at least one item")
  | _ =>
      let productIds := map productId (items dto) in
      let found := ProductsService.findByIds productIds tbl in
      if negb (length found =? length productIds)%nat then
        inl (BadRequestException "One or more products not found")
      else
        let productMap : gmap string Product := list_to_map found in
        price_items productMap (items dto) 0 []
  end.

(** *** [create], lines 36 to 49 and 142 to 154: the idempotency cache *)

(** [`${userId}-${idempotencyKey}`] *)
Definition cache_key (uid key : string) : string := uid +:+ "-" +:+ key.

(** Truthiness of an optional string, as tested by [if (idempotencyKey)]:
    [undefined] and the empty string are falsy. *)
Definition truthy (key : option string) : bool :=
  match key with
  | None => false
  | Some EmptyString => false
  | Some _ => true
  end.

(** The order id the cache answers with, if any. *)
Definition recent_order (uid : string) (key : option string) (now : Z)
    (cache : gmap string CacheEntry) : option string :=
  match key with
  | Some k =>
      if truthy key then
        match cache !! cache_key uid k with
        | Some recent =>
            if now - timestamp recent <? 5000 then Some (orderId recent)
            else None
        | None => None
        end
      else None
  | None => None
  end.

(** Write the cache entry and schedule its deletion. *)
Definition remember (uid : string) (key : option string) (env : Env)
    (oid : string) (st : State) : State :=
  match key with
  | Some k =>
      if truthy key then
        mkState (products st) (orders st)
          (<[cache_key uid k := mkCacheEntry (now_record env) oid]>
             (recentOrders st))
          (timers st ++ [(now_record env + 10000, cache_key uid k)])
      else st
  | None => st
  end.

(** *** [create], lines 100 to 140: the transaction *)

(** The second loop over [items]: [product.update] with
    [stock: { decrement: item.qty }]; an update of a missing row throws. *)
Fixpoint decrement_stock (its : list OrderItemDto)
    (tbl : gmap string Product) : option (gmap string Product) :=
  match its with
  | [] => Some tbl
  | item :: rest =>
      match tbl !! productId item with
      | None => None
      | Some p =>
          decrement_stock rest
            (<[productId item := decrement (qty item) p]> tbl)
      end
  end.

(** The transaction either commits both the new order and every decrement
    or throws and leaves the store as it was.  The database can refuse it
    for more than the model has: a total or a line total beyond the
    integer column, a buyer id that names no user; the program then
    throws where the model commits. *)
Definition transaction (uid : string) (its : list OrderItemDto) (total : Z)
    (orderItems : list OrderItem) (env : Env) (st : State)
    : HttpException + (OrderView * State) :=
  match orders st !! db_uuid env with
  | Some _ => inl (PrismaError "P2002")
  | None =>
      let o := mkOrder uid PENDING total (db_now env) orderItems in
      let newOrder := view_with_products (products st) (db_uuid env) o in
      match decrement_stock its (products st) with
      | None => inl (PrismaError "P2025")
      | Some tbl =>
          inr (newOrder,
               set_products tbl
                 (set_orders (<[db_uuid env := o]> (orders st)) st))
      end
  end.

(** *** [create] *)

(** What [create] has reached when it awaits the transaction: it has
    already answered (replay or rejection), or it holds the priced order. *)
Inductive Pending :=
| Answer (r : Outcome (option OrderView))
| Commit (total : Z) (orderItems : list OrderItem).

(** Lines 36 to 98: up to the transaction. *)
Definition create_begin (dto : CreateOrderDto) (uid : string)
    (key : option string) (now : Z) (st : State) : Pending :=
  match recent_order uid key now (recentOrders st) with
  | Some oid => Answer (Returned (view_items_only oid <$> orders st !! oid))
  | None =>
      match price_order dto (products st) with
      | inl e => Answer (Threw e)
      | inr (total, orderItems) => Commit total orderItems
      end
  end.

(** Lines 100 to 157: the transaction and the cache entry. *)
Definition create_end (dto : CreateOrderDto) (uid : string)
    (key : option string) (env : Env) (p : Pending) (st : State)
    : Outcome (option OrderView) * State :=
  match p with
  | Answer r => (r, st)
  | Commit total orderItems =>
      match transaction uid (items dto) total orderItems env st with
      | inl e => (Threw e, st)
      | inr (newOrder, st') =>
          (Returned (Some newOrder),
           remember uid key env (v_id newOrder) st')
      end
  end.

(** A call that runs without another request in between. *)
Definition create (dto : CreateOrderDto) (uid : string)
    (key : option string) (env : Env) (st : State)
    : Outcome (option OrderView) * State :=
  create_end dto uid key env
    (create_begin dto uid key (now_check env) st) st.

(** *** [findAll] and [findOne] *)

(** The [where] of [findAll] and [findOne] as a row predicate; a filter
    whose value is [undefined] does not restrict. *)
Definition visible (user : AuthUser) (o : Order) : bool :=
  match user_role user with
  | ADMIN => true
  | CUSTOMER =>
      match user_id user with
      | Some uid => bool_decide (userId o = uid)
      | None => true
      end
  end.

(** [findMany({ where, orderBy: { createdAt: 'desc' } })] before paging.
    Among orders of one creation time the database is free to choose an
    order, and again at every query; the model takes one, the same at
    every call. *)
Definition matching_orders (user : AuthUser) (st : State)
    : list (string * Order) :=
  merge_sort newer_first
    (map_to_list (filter (fun ko : string * Order => visible user ko.2 = true)
                    (orders st))).

Definition findAll (paginationDto : PaginationDto) (user : AuthUser)
    (st : State) : Outcome OrderPage :=
  let pg := default 1 (page paginationDto) in
  let lim := default 20 (limit paginationDto) in
  let skip := (pg - 1) * lim in
  let rows := matching_orders user st in
  match window skip lim rows with
  | inl e => Threw e
  | inr found =>
      Returned
        (mkPage (map (fun ko => view_with_products (products st) ko.1 ko.2)
                   found)
           pg lim (Z.of_nat (length rows)))
  end.

Definition order_not_found (oid : string) : HttpException :=
  NotFoundException ("Order with ID " +:+ oid +:+ " not found").

(** [findOne] answers with the order, its items and their products as
    [create] and [updateStatus] do; what it selects beyond them, the
    [description] of a product and the joined [user], is not in the
    model. *)
Definition findOne (oid : string) (user : AuthUser) (st : State)
    : Outcome OrderView :=
  match orders st !! oid with
  | Some o =>
      if visible user o then
        Returned (view_with_products (products st) oid o)
      else Threw (order_not_found oid)
  | None => Threw (order_not_found oid)
  end.

(** *** [updateStatus] *)

Definition updateStatus (oid : string) (dto : UpdateOrderStatusDto)
    (st : State) : Outcome OrderView * State :=
  match findOne oid (mkUser None ADMIN) st with
  | Threw e => (Threw e, st)
  | Returned _ =>
      match orders st !! oid with
      | None => (Threw (PrismaError "P2025"), st)
      | Some o =>
          let o' := with_status (new_status dto) o in
          (Returned (view_with_products (products st) oid o'),
           set_orders (<[oid := o']> (orders st)) st)
      end
  end.

End OrdersService.

Import ProductsService OrdersService.

(** ** The service at run time *)

(** The event loop runs the callbacks that are due: each deletes its key,
    whatever entry the key holds by then. *)
Definition fire_timers (now : Z) (st : State) : State :=
  mkState (products st) (orders st)
    (foldl (fun m t => delete t.2 m) (recentOrders st)
       (filter (fun t : Z * string => t.1 ≤ now) (timers st)))
    (filter (fun t : Z * string => ¬ t.1 ≤ now) (timers st)).

(** A placement as the controller passes it on, and a run of placements
    one after the other; due timers fire before each. *)
Record Request := mkRequest {
  req_dto : CreateOrderDto;
  req_user : string;
  req_key : option string;
  req_env : Env
}.

Definition serve (r : Request) (st : State)
    : Outcome (option OrderView) * State :=
  create (req_dto r) (req_user r) (req_key r) (req_env r)
    (fire_timers (now_check (req_env r)) st).

Fixpoint run (rs : list Request) (st : State)
    : list (Outcome (option OrderView)) * State :=
  match rs with
  | [] => ([], st)
  | r :: rest =>
      let '(out, st1) := serve r st in
      let '(outs, st2) := run rest st1 in
      (out :: outs, st2)
  end.

(** * Users and authentication

    [src/users/users.service.ts], [src/auth/auth.service.ts] and
    [src/auth/strategies/jwt-refresh.strategy.ts].  The table of users is
    a finite map keyed by [id]; [email] is a unique column (the service
    reads rows with [findUnique({ where: { email } })]). *)

(** A row of [user]. *)
Record User := mkUserRow {
  u_email : string;
  u_passwordHash : string;
  u_role : Role;
  u_createdAt : Z
}.

(** [select: { id, email, role, createdAt }], which is also a row without
    its [passwordHash]. *)
Record UserView := mkUserView {
  uv_id : string;
  uv_email : string;
  uv_role : Role;
  uv_createdAt : Z
}.

(** The argument of [UsersService.create]. *)
Record NewUser := mkNewUser {
  nu_email : string;
  nu_passwordHash : string;
  nu_role : option Role
}.

(** The two fields [register] reads off its [RegisterDto]. *)
Record RegisterDto := mkRegisterDto {
  reg_email : string;
  reg_password : string
}.

Record TokenPayload := mkPayload {
  tp_sub : string;
  tp_email : string;
  tp_role : Role
}.

(** What [JwtRefreshStrategy.validate] hands on as [req.user]. *)
Record RequestUser := mkRequestUser {
  ru_id : string;
  ru_email : string;
  ru_role : Role
}.

Record Tokens := mkTokens {
  accessToken : string;
  refreshToken : string
}.

(** What [register] gets from its environment: the salted hash
    [bcrypt.hash] produces, and the id and creation time the database
    gives the row. *)
Record RegisterEnv := mkRegisterEnv {
  bcrypt_hashed : string;
  user_uuid : string;
  user_now : Z
}.

(** The exceptions of the authentication code: those of the services
    above, [UnauthorizedException], and the error a failing [signAsync] or
    [verify] raises. *)
Inductive AuthException :=
| Http (e : HttpException)
| UnauthorizedException (message : string)
| JsonWebTokenError.

(** The libraries and the configuration the authentication code is
    handed: [bcrypt.compare], [JwtService.signAsync] and [verify] (an
    absent result stands for a raised error) and [ConfigService.get]. *)
Class Externals := {
  bcrypt_compare : string → string → bool;
  jwt_sign : TokenPayload → option string → string → option string;
  jwt_verify : string → option string → option TokenPayload;
  config_get : string → option string
}.

Definition view_of_user (id : string) (u : User) : UserView :=
  mkUserView id (u_email u) (u_role u) (u_createdAt u).

Module UsersService.

(** [findUnique({ where: { email } })]: the row with that email. *)
Definition findByEmail (email : string) (users : gmap string User)
    : option (string * User) :=
  head (map_to_list
          (filter (fun kv : string * User => u_email kv.2 = email) users)).

(** [findUnique({ where: { id }, select })] *)
Definition findById (id : string) (users : gmap string User)
    : option UserView :=
  view_of_user id <$> users !! id.

(** [create]: the role is [data.role || Role.CUSTOMER]; a taken id or
    email is refused by the database. *)
Definition create (data : NewUser) (env : RegisterEnv)
    (users : gmap string User)
    : (AuthException + UserView) * gmap string User :=
  let row := mkUserRow (nu_email data) (nu_passwordHash data)
               (default CUSTOMER (nu_role data)) (user_now env) in
  match users !! user_uuid env, findByEmail (nu_email data) users with
  | None, None =>
      (inr (view_of_user (user_uuid env) row),
       <[user_uuid env := row]> users)
  | _, _ => (inl (Http (PrismaError "P2002")), users)
  end.

End UsersService.

Module AuthService.

Definition generateTokens `{Externals} (user : UserView)
    : AuthException + Tokens :=
  let payload := mkPayload (uv_id user) (uv_email user) (uv_role user) in
  match jwt_sign payload (config_get "JWT_SECRET")
          (default "15m" (config_get "JWT_ACCESS_TOKEN_EXPIRY")),
        jwt_sign payload (config_get "JWT_REFRESH_SECRET")
          (default "7d" (config_get "JWT_REFRESH_TOKEN_EXPIRY")) with
  | Some access, Some refresh => inr (mkTokens access refresh)
  | _, _ => inl JsonWebTokenError
  end.

Definition register `{Externals} (dto : RegisterDto) (env : RegisterEnv)
    (users : gmap string User)
    : (AuthException + Tokens) * gmap string User :=
  match UsersService.findByEmail (reg_email dto) users with
  | Some _ =>
      (inl (Http (ConflictException "User with this email already exists")),
       users)
  | None =>
      match UsersService.create
              (mkNewUser (reg_email dto) (bcrypt_hashed env) None) env users
      with
      | (inl e, users') => (inl e, users')
      | (inr user, users') => (generateTokens user, users')
      end
  end.

(** [validateUser]: the row without its hash, or [null]. *)
Definition validateUser `{Externals} (email password : string)
    (users : gmap string User) : option UserView :=
  match UsersService.findByEmail email users with
  | Some (id, user) =>
      if bcrypt_compare password (u_passwordHash user)
      then Some (view_of_user id user)
      else None
  | None => None
  end.

Definition login `{Externals} (user : UserView) : AuthException + Tokens :=
  generateTokens user.

Definition refreshTokens `{Externals} (user : UserView)
    : AuthException + Tokens :=
  generateTokens user.

(** The [try] block of [validateRefreshToken]. *)
Definition verified_user `{Externals} (token : string)
    (users : gmap string User) : AuthException + option UserView :=
  match jwt_verify token (config_get "JWT_REFRESH_SECRET") with
  | None => inl JsonWebTokenError
  | Some payload =>
      match UsersService.findById (tp_sub payload) users with
      | None => inl (UnauthorizedException "User not found")
      | Some user => inr (Some user)
      end
  end.

(** [validateRefreshToken]: the [try] block, and the [catch] that
    replaces whatever was thrown. *)
Definition validateRefreshToken `{Externals} (token : string)
    (users : gmap string User) : AuthException + option UserView :=
  match verified_user token users with
  | inr user => inr user
  | inl _ => inl (UnauthorizedException "Invalid refresh token")
  end.

End AuthService.

Module JwtRefreshStrategy.

(** [validate], on the [refreshToken] of the request body. *)
Definition validate `{Externals} (refreshToken : string)
    (users : gmap string User) : AuthException + RequestUser :=
  match AuthService.validateRefreshToken refreshToken users with
  | inl e => inl e
  | inr None => inl (UnauthorizedException "Invalid refresh token")
  | inr (Some user) =>
      inr (mkRequestUser (uv_id user) (uv_email user) (uv_role user))
  end.

End JwtRefreshStrategy.

(** * Seeding: [prisma/seed.ts] *)

(** What the seed gets from its environment: the hash of the admin
    password, the id and creation time of the admin row, and the id the
    database draws for the i-th product it creates. *)
Record SeedEnv := mkSeedEnv {
  seed_hash : string;
  admin_uuid : string;
  admin_now : Z;
  product_uuid : nat → string
}.

Module Seed.

(** The inch sign (code 34) of the last title. *)
Definition inch : string :=
  String (Ascii.Ascii false true false false false true false false)
    EmptyString.

(** The sample products: title, price in fils and stock. *)
Definition sample_products : list (string * Z * Z) :=
  [ ("iPhone 15 Pro", 399900, 50);
    ("Samsung Galaxy S24", 349900, 30);
    ("MacBook Pro M3", 799900, 20);
    ("iPad Air", 239900, 25);
    ("Apple Watch Series 9", 149900, 40);
    ("AirPods Pro", 99900, 60);
    ("Dell XPS 13", 459900, 15);
    ("Sony WH-1000XM5", 139900, 35);
    ("Nintendo Switch OLED", 129900, 45);
    ("Samsung 55" +:+ inch +:+ " 4K TV", 199900, 10) ].

(** [where: { title }] *)
Definition find_by_title (t : string) (tbl : gmap string Product)
    : option (string * Product) :=
  head (map_to_list
          (filter (fun kp : string * Product => title kp.2 = t) tbl)).

(** [user.upsert({ where: { email }, update: {}, create })] for the
    admin; nothing when the database refuses the new row. *)
Definition upsert_admin (env : SeedEnv) (users : gmap string User)
    : option (gmap string User) :=
  match UsersService.findByEmail "admin@example.com" users with
  | Some _ => Some users
  | None =>
      match users !! admin_uuid env with
      | Some _ => None
      | None =>
          Some (<[admin_uuid env :=
                    mkUserRow "admin@example.com" (seed_hash env) ADMIN
                      (admin_now env)]> users)
      end
  end.

(** [product.upsert({ where: { title }, update: {}, create: product })];
    a created row is active. *)
Definition upsert_product (row : string * Z * Z) (uuid : string)
    (tbl : gmap string Product) : option (gmap string Product) :=
  match find_by_title row.1.1 tbl with
  | Some _ => Some tbl
  | None =>
      match tbl !! uuid with
      | Some _ => None
      | None => Some (<[uuid := mkProduct row.1.1 row.1.2 row.2 true]> tbl)
      end
  end.

(** The loop over the products, from the i-th on; it stops where an upsert
    throws and keeps what was written before. *)
Fixpoint upsert_products (rows : list (string * Z * Z)) (i : nat)
    (env : SeedEnv) (tbl : gmap string Product)
    : bool * gmap string Product :=
  match rows with
  | [] => (true, tbl)
  | row :: rest =>
      match upsert_product row (product_uuid env i) tbl with
      | None => (false, tbl)
      | Some tbl' => upsert_products rest (S i) env tbl'
      end
  end.

(** [main]: whether it ran to its end, and the tables it leaves. *)
Definition main (env : SeedEnv) (users : gmap string User) (st : State)
    : bool * gmap string User * State :=
  match upsert_admin env users with
  | None => (false, users, st)
  | Some users' =>
      let '(ok, tbl) := upsert_products sample_products 0 env (products st) in
      (ok, users', set_products tbl st)
  end.

End Seed.

(** * Auxiliary notions used by the statements *)

(** The rows [findByIds] selects, as a map. *)
Definition active_rows (ids : list string) (tbl : gmap string Product)
    : gmap string Product :=
  filter (fun kp : string * Product => kp.1 ∈ ids ∧ isActive kp.2 = true) tbl.

(** Every id of the request resolves to an active product. *)
Definition all_active (ids : list string) (tbl : gmap string Product) : Prop :=
  ∀ k, k ∈ ids → ∃ p, tbl !! k = Some p ∧ isActive p = true.

(** The sum of the line totals of a list of lines. *)
Definition sum_lines (l : list OrderItem) : Z :=
  foldr (fun it acc => lineTotalFils it + acc) 0 l.

(** The line the loop builds for a request item and the product it found. *)
Definition line_of (p : Product) (d : OrderItemDto) : OrderItem :=
  mkOrderItem (productId d) (qty d) (priceFils p) (priceFils p * qty d).

(** What one iteration of the loop throws, if anything. *)
Definition item_check (productMap : gmap string Product) (d : OrderItemDto)
    : option HttpException :=
  match productMap !! productId d with
  | None =>
      Some (BadRequestException ("Product " +:+ productId d +:+ " not found"))
  | Some p =>
      if qty d <=? 0 then
        Some (BadRequestException "Quantity must be greater than 0")
      else if stock p <? qty d then
        Some (BadRequestException (insufficient_stock_message p (qty d)))
      else None
  end.

(** A request item the loop accepts, and the line it yields. *)
Definition priced (productMap : gmap string Product) (d : OrderItemDto)
    (it : OrderItem) : Prop :=
  ∃ p, productMap !! productId d = Some p ∧ 0 < qty d ∧ qty d ≤ stock p ∧
       it = line_of p d.

(** Total quantity a request asks of product [k]. *)
Definition requested (k : string) (its : list OrderItemDto) : Z :=
  foldr (fun d acc => (if decide (productId d = k) then qty d else 0) + acc)
    0 its.

(** Total quantity the lines of an order hold of product [k]. *)
Definition line_qty (k : string) (l : list OrderItem) : Z :=
  foldr (fun it acc =>
           (if decide (item_productId it = k) then item_qty it else 0) + acc)
    0 l.

(** Total quantity of product [k] over all stored orders. *)
Definition ordered_qty (k : string) (os : gmap string Order) : Z :=
  map_fold (fun _ o acc => line_qty k (order_items o) + acc) 0 os.

(** The stock of product [k], 0 for an id without a row. *)
Definition stock_of (k : string) (st : State) : Z :=
  from_option stock 0 (products st !! k).

(** Every product's stock is at least 0. *)
Definition stock_nonneg (st : State) : Prop :=
  map_Forall (fun _ p => 0 ≤ stock p) (products st).

#[global] Instance OrderItemDto_eq_dec : EqDecision OrderItemDto.
Proof. solve_decision. Defined.

#[global] Instance OrderItem_eq_dec : EqDecision OrderItem.
Proof. solve_decision. Defined.

(** The product id [k] names an active row of the table. *)
Definition resolves (tbl : gmap string Product) (k : string) : Prop :=
  isActive <$> tbl !! k = Some true.

#[global] Instance resolves_dec tbl k : Decision (resolves tbl k).
Proof. unfold resolves. apply _. Defined.

(** [Number.MAX_SAFE_INTEGER], and the integers a JavaScript number holds
    exactly: a template literal prints these as decimal numerals. *)
Definition MAX_SAFE_INTEGER : Z := 9007199254740991.

Definition safe_integer (n : Z) : Prop :=
  - MAX_SAFE_INTEGER ≤ n ≤ MAX_SAFE_INTEGER.

(** The text [part] occurs in [s]. *)
Definition mentions (s part : string) : Prop :=
  ∃ pre post, s = pre +:+ part +:+ post.

(** The four exceptions of the validation stage. *)
Definition empty_order_error : HttpException :=
  BadRequestException "Order must contain at least one item".

Definition products_not_found_error : HttpException :=
  BadRequestException "One or more products not found".

Definition quantity_error : HttpException :=
  BadRequestException "Quantity must be greater than 0".

Definition insufficient_stock_error (p : Product) (requested : Z)
    : HttpException :=
  BadRequestException (insufficient_stock_message p requested).

(** The rows of [order] a caller may see. *)
Definition own_orders (user : AuthUser) (st : State) : gmap string Order :=
  filter (fun ko : string * Order => visible user ko.2 = true) (orders st).

(** A caller with an id of its own and without the admin role. *)
Definition non_admin (user : AuthUser) (uid : string) : Prop :=
  user_role user ≠ ADMIN ∧ user_id user = Some uid.

(** The order a call answered with, if it answered with one. *)
Definition returned {A : Type} (out : Outcome (option A)) : option A :=
  match out with
  | Returned r => r
  | Threw _ => None
  end.

(** Placements that have all reached their transaction before any of them
    commits: the calls, each with what it held at that point, finish one
    after the other. *)
Fixpoint finish_all (dto : CreateOrderDto)
    (calls : list (string * Env * Pending)) (st : State)
    : list (Outcome (option OrderView)) * State :=
  match calls with
  | [] => ([], st)
  | (uid, env, p) :: rest =>
      let '(out, st1) := create_end dto uid None env p st in
      let '(outs, st2) := finish_all dto rest st1 in
      (out :: outs, st2)
  end.

(** The same request placed by several callers, every one of them priced
    against the state [st] before the first transaction runs. *)
Definition race (dto : CreateOrderDto) (callers : list (string * Env))
    (st : State) : list (Outcome (option OrderView)) * State :=
  finish_all dto
    (map (fun c => (c.1, c.2, create_begin dto c.1 None (now_check c.2) st))
       callers)
    st.

(** * Example data

    The catalog of the examples: product P of the specification (price
    10000, stock 5), a second product with one unit left and an inactive
    product. *)

Definition demo_catalog : gmap string Product :=
  <["prod-P" := mkProduct "Widget" 10000 5 true]>
    (<["prod-Q" := mkProduct "Gadget" 250 1 true]>
       (<["prod-R" := mkProduct "Retired" 99 7 false]> ∅)).

Definition demo_state : State := mkState demo_catalog ∅ ∅ [].

Definition demo_order : CreateOrderDto :=
  mkCreateOrderDto [mkItemDto "prod-P" 2; mkItemDto "prod-Q" 1].

Definition demo_env (t : Z) (oid : string) : Env := mkEnv t oid t t.

(** The state after Alice's and Bob's first orders. *)
Definition demo_two_orders : State :=
  (run [ mkRequest demo_order "alice" (Some "abc") (demo_env 1000 "order-1");
         mkRequest (mkCreateOrderDto [mkItemDto "prod-P" 2]) "bob" None
           (demo_env 2000 "order-2") ] demo_state).2.

(** Two buyers, the second asking for more than is left. *)
Definition demo_requests : list Request :=
  [ mkRequest demo_order "alice" (Some "abc") (demo_env 1000 "order-1");
    mkRequest (mkCreateOrderDto [mkItemDto "prod-P" 10]) "bob" None
      (demo_env 2000 "order-2") ].

(** * Further notions *)

(** A request item the catalog can serve: its product is there, active and
    holds the quantity, which is positive. *)
Definition servable (tbl : gmap string Product) (d : OrderItemDto) : Prop :=
  ∃ p, tbl !! productId d = Some p ∧ isActive p = true ∧
       0 < qty d ∧ qty d ≤ stock p.

(** The call answered with an order. *)
Definition succeeded {A : Type} (out : Outcome (option A)) : bool :=
  match out with
  | Returned (Some _) => true
  | _ => false
  end.

(** Placements of one unit of product [k], without a token, one per
    caller. *)
Definition single_unit_requests (k : string) (callers : list (string * Env))
    : list Request :=
  map (fun c => mkRequest (mkCreateOrderDto [mkItemDto k 1]) c.1 None c.2)
    callers.

(** The rows of a page, none when the call threw. *)
Definition page_rows (out : Outcome OrderPage) : list OrderView :=
  match out with
  | Returned found => data found
  | Threw _ => []
  end.

(** Pages 1 to [n] of [findAll] under one limit, one after the other. *)
Definition pages_upto (n : nat) (lim : Z) (user : AuthUser) (st : State)
    : list OrderView :=
  concat
    (map (fun i =>
            page_rows (findAll (mkPagination (Some (Z.of_nat i + 1)) (Some lim))
                         user st))
       (seq 0 n)).

(** Every order the caller may see, newest first, as [findAll] shows it. *)
Definition all_rows (user : AuthUser) (st : State) : list OrderView :=
  map (fun ko => view_with_products (products st) ko.1 ko.2)
    (matching_orders user st).

(** Newest first, on what [findAll] returns. *)
Definition view_newer_first (a b : OrderView) : Prop :=
  v_createdAt b ≤ v_createdAt a.

(** ** The [meta] of a page: lines 195 to 204 of [findAll] *)

(** The values [Math.ceil(total / limit)] takes on integers: an integer,
    or what a division by zero gives. *)
Inductive JsNumber := Finite (z : Z) | PlusInfinity | MinusInfinity | NaN.

(** [Math.ceil(total / limit)] *)
Definition ceil_div (total lim : Z) : JsNumber :=
  if lim =? 0 then
    if total =? 0 then NaN
    else if 0 <? total then PlusInfinity else MinusInfinity
  else Finite (- ((- total) / lim)).

(** [page < x] for a number [x]: false on [NaN]. *)
Definition js_lt (a : Z) (x : JsNumber) : bool :=
  match x with
  | Finite z => a <? z
  | PlusInfinity => true
  | MinusInfinity => false
  | NaN => false
  end.

Record PageMeta := mkMeta {
  totalPages : JsNumber;
  hasNext : bool;
  hasPrev : bool
}.

(** [totalPages], [hasNext] and [hasPrev], from [page], [limit] and
    [total]. *)
Definition page_meta (found : OrderPage) : PageMeta :=
  mkMeta (ceil_div (meta_total found) (meta_limit found))
    (js_lt (meta_page found) (ceil_div (meta_total found) (meta_limit found)))
    (1 <? meta_page found).

(** Page [q] under limit [lim]. *)
Definition page_at (q lim : Z) (user : AuthUser) (st : State)
    : list OrderView :=
  page_rows (findAll (mkPagination (Some q) (Some lim)) user st).

(** Every cache entry has its deletion pending: the timer set when the
    entry was written. *)
Definition cache_timed (st : State) : Prop :=
  ∀ ck e, recentOrders st !! ck = Some e →
          (timestamp e + 10000, ck) ∈ timers st.

(** ** The validation pipe in front of the controller *)

(** The decorators of [OrderItemDto] and [CreateOrderDto]: [IsUUID] on the
    product id, [IsInt] and [Min(1)] on the quantity, [IsArray],
    [ArrayMinSize(1)] and [ValidateNested] on the items.  The test for a
    UUID is a parameter; a quantity in [Z] is an integer. *)
Definition valid_OrderItemDto (isUUID : string → bool) (d : OrderItemDto)
    : bool :=
  isUUID (productId d) && (1 <=? qty d).

Definition valid_CreateOrderDto (isUUID : string → bool)
    (dto : CreateOrderDto) : bool :=
  (1 <=? length (items dto))%nat &&
  forallb (valid_OrderItemDto isUUID) (items dto).

(** A number as [Type(() => Number)] makes it from the text of a query:
    a rational (every finite number of JavaScript is one), an infinity or
    [NaN]. *)
Inductive QueryNumber :=
| Rational (q : Q)
| Infinity (negative : bool)
| NotANumber.

(** [page] and [limit] as the decorators see them. *)
Record PaginationQuery := mkPaginationQuery {
  q_page : option QueryNumber;
  q_limit : option QueryNumber
}.

(** [IsPositive] is [value > 0], [Min(n)] is [value >= n] and [Max(n)] is
    [value <= n]; a comparison with [NaN] is false. *)
Definition IsPositive (x : QueryNumber) : bool :=
  match x with
  | Rational q => negb (Qle_bool q 0)
  | Infinity negative => negb negative
  | NotANumber => false
  end.

Definition Min (n : Z) (x : QueryNumber) : bool :=
  match x with
  | Rational q => Qle_bool (inject_Z n) q
  | Infinity negative => negb negative
  | NotANumber => false
  end.

Definition Max (n : Z) (x : QueryNumber) : bool :=
  match x with
  | Rational q => Qle_bool q (inject_Z n)
  | Infinity negative => negative
  | NotANumber => false
  end.

(** The decorators of [PaginationDto]: [IsOptional], [IsPositive] and
    [Min(1)] on [page]; the same and [Max(100)] on [limit].  There is no
    [IsInt] among them. *)
Definition valid_PaginationDto (raw : PaginationQuery) : bool :=
  from_option (fun p => IsPositive p && Min 1 p) true (q_page raw) &&
  from_option (fun l => IsPositive l && Min 1 l && Max 100 l) true
    (q_limit raw).

(** The query whose [page] and [limit] are the integers of [pg]. *)
Definition query_of (pg : PaginationDto) : PaginationQuery :=
  mkPaginationQuery (Rational ∘ inject_Z <$> page pg)
    (Rational ∘ inject_Z <$> limit pg).

(** ** The calls that write, one after the other *)

Inductive Op :=
| PlaceOrder (r : Request)
| SetStatus (oid : string) (dto : UpdateOrderStatusDto)
| AddProduct (dto : CreateProductDto) (uuid : string)
| ChangeProduct (id : string) (dto : UpdateProductDto).

Definition step (op : Op) (st : State) : State :=
  match op with
  | PlaceOrder r => (serve r st).2
  | SetStatus oid dto => (updateStatus oid dto st).2
  | AddProduct dto uuid => (ProductsService.create dto uuid st).2
  | ChangeProduct id dto => (ProductsService.update id dto st).2
  end.

Definition steps (ops : list Op) (st : State) : State :=
  foldl (fun s op => step op s) st ops.

(** An order as it was, but for its status. *)
Definition same_but_status (o o' : Order) : Prop :=
  userId o' = userId o ∧ totalFils o' = totalFils o ∧
  createdAt o' = createdAt o ∧ order_items o' = order_items o.

(** The total of an order is the sum of its lines, and every line is its
    unit price times its positive quantity. *)
Definition order_wf (o : Order) : Prop :=
  totalFils o = sum_lines (order_items o) ∧
  Forall (fun it => lineTotalFils it = unitPriceFils it * item_qty it ∧
                    0 < item_qty it)
    (order_items o).

Definition orders_wf (st : State) : Prop :=
  map_Forall (fun _ o => order_wf o) (orders st).

(** The update that takes a product off the catalog. *)
Definition deactivation : UpdateProductDto :=
  mkUpdateProductDto None None None (Some false).

(** ** Users *)

(** No two users share an email. *)
Definition emails_unique (users : gmap string User) : Prop :=
  ∀ id1 id2 u1 u2,
    users !! id1 = Some u1 → users !! id2 = Some u2 →
    u_email u1 = u_email u2 → id1 = id2.

(** Some user has the email. *)
Definition email_taken (email : string) (users : gmap string User) : Prop :=
  ∃ id u, users !! id = Some u ∧ u_email u = email.

(** The admins among the users. *)
Definition admins (users : gmap string User) : gmap string User :=
  filter (fun kv : string * User => u_role kv.2 = ADMIN) users.

(** Registrations one after the other. *)
Definition register_all `{Externals}
    (calls : list (RegisterDto * RegisterEnv)) (users : gmap string User)
    : gmap string User :=
  foldl (fun us c => (AuthService.register c.1 c.2 us).2) users calls.

(** The row [register] writes. *)
Definition registered_row (dto : RegisterDto) (env : RegisterEnv) : User :=
  mkUserRow (reg_email dto) (bcrypt_hashed env) CUSTOMER (user_now env).

(** Stand-ins for the libraries, for the examples: a hash that shows its
    password, tokens that show their subject, a verifier that knows one
    token, and a configuration with both secrets. *)
Definition demo_externals : Externals := {|
  bcrypt_compare pw h := bool_decide (h = "hash of " +:+ pw);
  jwt_sign payload secret expiry :=
    (fun s => s +:+ ":" +:+ tp_sub payload +:+ ":" +:+ expiry) <$> secret;
  jwt_verify token secret :=
    if bool_decide (token = "refresh-of-root")
    then Some (mkPayload "user-0" "stale@example.com" CUSTOMER)
    else None;
  config_get key :=
    if bool_decide (key = "JWT_SECRET") then Some "s1"
    else if bool_decide (key = "JWT_REFRESH_SECRET") then Some "s2"
    else None
|}.

Definition demo_users : gmap string User :=
  <["user-0" := mkUserRow "admin@example.com" "hash of admin123" ADMIN 0]> ∅.

Definition demo_registration : RegisterDto * RegisterEnv :=
  (mkRegisterDto "customer@example.com" "password123",
   mkRegisterEnv "hash of password123" "user-1" 50).

(** The stock a product creation or update writes, if it writes one, is
    not negative. *)
Definition writes_stock_nonneg (op : Op) : Prop :=
  match op with
  | AddProduct dto _ => 0 ≤ cp_stock dto
  | ChangeProduct _ dto => from_option (fun s => 0 ≤ s) True (up_stock dto)
  | PlaceOrder _ => True
  | SetStatus _ _ => True
  end.

(** Some row of the catalogue carries the title. *)
Definition title_present (t : string) (tbl : gmap string Product) : Prop :=
  ∃ id p, tbl !! id = Some p ∧ title p = t.

(** A database that holds one of the seeded products already, with part
    of its stock sold and a new price, and the ids a seed run draws. *)
Definition demo_seeded_state : State :=
  mkState (<["prod-A" := mkProduct "AirPods Pro" 89900 7 true]> ∅) ∅ ∅ [].

Definition demo_seed_env (tag : string) : SeedEnv :=
  mkSeedEnv "hash of admin123" (tag +:+ "-admin") 0
    (fun i => tag +:+ "-" +:+ pretty (Z.of_nat i)).

(** The columns of an order and its item rows, which every method that
    answers with an order returns; what a method joins to them (the
    selected product of an item, the user of the order) is left aside. *)
Definition order_columns (v : OrderView)
    : string * string * OrderStatus * Z * Z * list OrderItem :=
  (v_id v, v_userId v, v_status v, v_totalFils v, v_createdAt v,
   map iv_item (v_items v)).

(** No two of the orders the caller may see were created at the same
    time: [orderBy: { createdAt: 'desc' }] then leaves the database no
    choice. *)
Definition distinct_times (user : AuthUser) (st : State) : Prop :=
  NoDup ((fun ko : string * Order => createdAt ko.2)
           <$> map_to_list (own_orders user st)).
(** * Properties *)

(** ** Catalog lookup *)

Section Catalog.
Context (ids : list string) (tbl : gmap string Product).

Lemma productMap_findByIds :
  (list_to_map (findByIds ids tbl) : gmap string Product) = active_rows ids tbl.
Proof. apply list_to_map_to_list. Qed.

Lemma length_findByIds :
  length (findByIds ids tbl) = size (active_rows ids tbl).
Proof. apply length_map_to_list. Qed.

Lemma active_rows_lookup (k : string) (p : Product) :
  active_rows ids tbl !! k = Some p ↔
  tbl !! k = Some p ∧ k ∈ ids ∧ isActive p = true.
Proof. unfold active_rows. rewrite map_lookup_filter_Some. naive_solver. Qed.

Lemma active_rows_dom :
  dom (active_rows ids tbl) ⊆ (list_to_set ids : gset string).
Proof.
  intros k Hk. apply elem_of_dom in Hk as [p Hp].
  apply active_rows_lookup in Hp. apply elem_of_list_to_set. tauto.
Qed.
End Catalog.

Lemma size_list_to_set_le (l : list string) :
  (size (list_to_set l : gset string) ≤ length l)%nat.
Proof.
  induction l as [|x l IH].
  - rewrite list_to_set_nil, size_empty. simpl. lia.
  - rewrite list_to_set_cons. simpl length.
    destruct (decide (x ∈ l)) as [Hin|Hnin].
    + assert ({[x]} ∪ list_to_set l = (list_to_set l : gset string)) as ->
        by set_solver.
      lia.
    + rewrite size_union by set_solver. rewrite size_singleton. lia.
Qed.

Lemma size_list_to_set_NoDup (l : list string) :
  size (list_to_set l : gset string) = length l → NoDup l.
Proof.
  induction l as [|x l IH]; intros Hsz.
  - constructor.
  - pose proof (size_list_to_set_le l) as Hle.
    rewrite list_to_set_cons in Hsz. simpl length in Hsz.
    destruct (decide (x ∈ l)) as [Hin|Hnin].
    + assert ({[x]} ∪ list_to_set l = (list_to_set l : gset string)) as Hu
        by set_solver.
      rewrite Hu in Hsz. lia.
    + rewrite size_union in Hsz by set_solver. rewrite size_singleton in Hsz.
      constructor; [done|]. apply IH. lia.
Qed.

(** The length check of [create] passes exactly when the ids are pairwise
    distinct and each names an active product. *)
Lemma findByIds_length (ids : list string) (tbl : gmap string Product) :
  length (findByIds ids tbl) = length ids ↔ NoDup ids ∧ all_active ids tbl.
Proof.
  rewrite length_findByIds, <- size_dom.
  pose proof (active_rows_dom ids tbl) as Hsub.
  pose proof (size_list_to_set_le ids) as Hle.
  pose proof (subseteq_size _ _ Hsub) as Hle'.
  split.
  - intros Heq.
    assert (size (list_to_set ids : gset string) = length ids) as Hsz by lia.
    split; [by apply size_list_to_set_NoDup|].
    assert (dom (active_rows ids tbl) ≡ list_to_set ids) as Hdom.
    { apply set_subseteq_size_equiv; [done|lia]. }
    intros k Hk.
    assert (k ∈ dom (active_rows ids tbl)) as Hin.
    { rewrite Hdom. by apply elem_of_list_to_set. }
    apply elem_of_dom in Hin as [p Hp].
    apply active_rows_lookup in Hp. exists p. tauto.
  - intros [Hnd Hall].
    rewrite <- (size_list_to_set (C:=gset string) ids) by done.
    f_equal. apply leibniz_equiv. apply set_equiv_subseteq. split; [done|].
    intros k Hk. apply elem_of_list_to_set in Hk.
    destruct (Hall k Hk) as (p & Hp & Hact).
    apply elem_of_dom. exists p. apply active_rows_lookup. done.
Qed.

(** ** Pricing and validation *)

Lemma sum_lines_app (l1 l2 : list OrderItem) :
  sum_lines (l1 ++ l2) = sum_lines l1 + sum_lines l2.
Proof. induction l1 as [|x l1 IH]; simpl; lia. Qed.

Lemma item_check_None (pm : gmap string Product) (d : OrderItemDto) :
  item_check pm d = None ↔
  ∃ p, pm !! productId d = Some p ∧ 0 < qty d ∧ qty d ≤ stock p.
Proof.
  unfold item_check. destruct (pm !! productId d) as [p|] eqn:Hp.
  - destruct (Z.leb_spec (qty d) 0); [naive_solver lia|].
    destruct (Z.ltb_spec (stock p) (qty d)); naive_solver lia.
  - naive_solver.
Qed.

Lemma price_items_step (pm : gmap string Product) d rest total acc :
  price_items pm (d :: rest) total acc =
  match item_check pm d with
  | Some e => inl e
  | None =>
      match pm !! productId d with
      | Some p =>
          price_items pm rest (total + priceFils p * qty d)
            (acc ++ [line_of p d])
      | None => inl (BadRequestException "")
      end
  end.
Proof.
  unfold item_check. simpl. destruct (pm !! productId d) as [p|]; [|done].
  destruct (qty d <=? 0); [done|]. by destruct (stock p <? qty d).
Qed.

Lemma price_items_inr (pm : gmap string Product) its total acc t ois :
  price_items pm its total acc = inr (t, ois) →
  ∃ new, ois = acc ++ new ∧ t = total + sum_lines new ∧
         Forall2 (priced pm) its new.
Proof.
  revert total acc. induction its as [|d rest IH]; intros total acc H.
  - simpl in H. injection H as <- <-. exists []. rewrite app_nil_r.
    simpl. split_and!; [done|lia|constructor].
  - rewrite price_items_step in H.
    destruct (item_check pm d) as [e|] eqn:Hc; [done|].
    apply item_check_None in Hc as (p & Hp & Hq & Hs). rewrite Hp in H.
    apply IH in H as (new & -> & -> & HF).
    exists (line_of p d :: new). rewrite <- app_assoc. simpl.
    split_and!; [done|lia|]. constructor; [|done]. by exists p.
Qed.

(** The loop reports the first offending item, in the order of [items]. *)
Lemma price_items_first_error (pm : gmap string Product) pre d post e total acc :
  Forall (fun d' => item_check pm d' = None) pre →
  item_check pm d = Some e →
  price_items pm (pre ++ d :: post) total acc = inl e.
Proof.
  revert total acc. induction pre as [|d' pre IH]; intros total acc Hpre Hd.
  - simpl app. rewrite price_items_step. by rewrite Hd.
  - inversion Hpre as [|? ? Hd' Hpre']; subst.
    change ((d' :: pre) ++ d :: post) with (d' :: (pre ++ d :: post)).
    rewrite price_items_step, Hd'.
    apply item_check_None in Hd' as (p & -> & _). by apply IH.
Qed.

Lemma price_items_all_ok (pm : gmap string Product) its total acc :
  Forall (fun d => item_check pm d = None) its →
  ∃ new, price_items pm its total acc = inr (total + sum_lines new, acc ++ new).
Proof.
  revert total acc. induction its as [|d rest IH]; intros total acc Hok.
  - exists []. simpl. by rewrite app_nil_r, Z.add_0_r.
  - inversion Hok as [|? ? Hd Hrest]; subst.
    rewrite price_items_step, Hd.
    apply item_check_None in Hd as (p & -> & _).
    destruct (IH (total + priceFils p * qty d) (acc ++ [line_of p d]) Hrest)
      as [new Hnew].
    exists (line_of p d :: new). rewrite Hnew, <- app_assoc. simpl.
    do 2 f_equal. lia.
Qed.

(** The three ways [price_order] goes, by the shape of the request. *)
Lemma price_order_empty (dto : CreateOrderDto) (tbl : gmap string Product) :
  items dto = [] →
  price_order dto tbl =
  inl (BadRequestException "Order must contain at least one item").
Proof. unfold price_order. by intros ->. Qed.

Lemma price_order_not_found (dto : CreateOrderDto) (tbl : gmap string Product) :
  items dto ≠ [] →
  ¬ (NoDup (map productId (items dto)) ∧
     all_active (map productId (items dto)) tbl) →
  price_order dto tbl = inl (BadRequestException "One or more products not found").
Proof.
  intros Hne Hbad. unfold price_order.
  destruct (items dto) as [|d rest] eqn:Hits; [done|].
  rewrite <- findByIds_length in Hbad.
  destruct (Nat.eqb_spec (length (findByIds (map productId (d :: rest)) tbl))
              (length (map productId (d :: rest)))); [done|done].
Qed.

Lemma price_order_resolved (dto : CreateOrderDto) (tbl : gmap string Product) :
  items dto ≠ [] →
  NoDup (map productId (items dto)) →
  all_active (map productId (items dto)) tbl →
  price_order dto tbl =
  price_items (active_rows (map productId (items dto)) tbl) (items dto) 0 [].
Proof.
  intros Hne Hnd Hall. unfold price_order.
  destruct (items dto) as [|d rest] eqn:Hits; [done|].
  assert (length (findByIds (map productId (d :: rest)) tbl) =
          length (map productId (d :: rest))) as Hlen.
  { apply findByIds_length. done. }
  rewrite Hlen, Nat.eqb_refl. simpl negb. cbv iota.
  by rewrite productMap_findByIds.
Qed.

(** On the items of the request the product map agrees with the table. *)
Lemma active_rows_item (dto : CreateOrderDto) (tbl : gmap string Product) d :
  all_active (map productId (items dto)) tbl →
  d ∈ items dto →
  active_rows (map productId (items dto)) tbl !! productId d =
  tbl !! productId d.
Proof.
  intros Hall Hd.
  assert (productId d ∈ map productId (items dto)) as Hin.
  { apply list_elem_of_fmap. by exists d. }
  destruct (Hall _ Hin) as (p & Hp & Hact). rewrite Hp.
  apply active_rows_lookup. done.
Qed.

(** ** Transactional commit *)

Lemma decrement_0 (p : Product) : decrement 0 p = p.
Proof. destruct p. unfold decrement. simpl. f_equal. lia. Qed.

Lemma decrement_decrement (a b : Z) (p : Product) :
  decrement b (decrement a p) = decrement (a + b) p.
Proof. unfold decrement. simpl. f_equal. lia. Qed.

Lemma decrement_stock_lookup its (tbl tbl' : gmap string Product) k :
  decrement_stock its tbl = Some tbl' →
  tbl' !! k = decrement (requested k its) <$> tbl !! k.
Proof.
  revert tbl. induction its as [|d rest IH]; intros tbl H; simpl in H.
  - injection H as <-. simpl. destruct (tbl !! k) as [p|]; [|done].
    simpl. by rewrite decrement_0.
  - destruct (tbl !! productId d) as [p|] eqn:Hp; [|done].
    rewrite (IH _ H). simpl. destruct (decide (productId d = k)) as [<-|Hne].
    + rewrite lookup_insert_eq, Hp. simpl. by rewrite decrement_decrement.
    + rewrite lookup_insert_ne by done. by rewrite Z.add_0_l.
Qed.

Lemma decrement_stock_Some its (tbl : gmap string Product) :
  Forall (fun d => is_Some (tbl !! productId d)) its →
  is_Some (decrement_stock its tbl).
Proof.
  revert tbl. induction its as [|d rest IH]; intros tbl Hall; simpl.
  - by eexists.
  - inversion Hall as [|? ? [p Hp] Hrest]; subst. rewrite Hp. apply IH.
    eapply Forall_impl; [exact Hrest|]. intros d' [p' Hp']. simpl.
    destruct (decide (productId d = productId d')) as [->|Hne].
    + rewrite lookup_insert_eq. by eexists.
    + rewrite lookup_insert_ne by done. by eexists.
Qed.

Lemma requested_absent k its :
  k ∉ map productId its → requested k its = 0.
Proof.
  induction its as [|d rest IH]; simpl; intros Hk; [done|].
  apply not_elem_of_cons in Hk as [Hne Hk].
  rewrite decide_False by done. rewrite IH by done. lia.
Qed.

Lemma requested_NoDup d its :
  NoDup (map productId its) → d ∈ its →
  requested (productId d) its = qty d.
Proof.
  induction its as [|d' rest IH]; simpl; intros Hnd Hd.
  - by apply elem_of_nil in Hd.
  - apply NoDup_cons in Hnd as [Hnin Hnd].
    apply elem_of_cons in Hd as [->|Hd].
    + rewrite decide_True by done. rewrite requested_absent by done. lia.
    + rewrite decide_False.
      * rewrite IH by done. lia.
      * intros Heq. apply Hnin. rewrite Heq. apply list_elem_of_fmap.
        by exists d.
Qed.

Lemma line_qty_app k l1 l2 : line_qty k (l1 ++ l2) = line_qty k l1 + line_qty k l2.
Proof. induction l1 as [|x l1 IH]; simpl; lia. Qed.

(** The lines of a priced order hold what the request asked for. *)
Lemma line_qty_priced (pm : gmap string Product) k its new :
  Forall2 (priced pm) its new → line_qty k new = requested k its.
Proof.
  induction 1 as [|d it its new (p & _ & _ & _ & ->) _ IH]; simpl; [done|].
  by rewrite IH.
Qed.

Lemma ordered_qty_insert k oid o (os : gmap string Order) :
  os !! oid = None →
  ordered_qty k (<[oid := o]> os) = line_qty k (order_items o) + ordered_qty k os.
Proof.
  intros Hfresh. unfold ordered_qty.
  rewrite map_fold_insert_L; [done| |done]. intros. lia.
Qed.

(** ** State projections of the steps *)

Lemma remember_tables uid key env oid st :
  products (remember uid key env oid st) = products st ∧
  orders (remember uid key env oid st) = orders st.
Proof. unfold remember. destruct key as [k|]; [|done]. by destruct (truthy (Some k)). Qed.

Lemma remember_falsy uid key env oid st :
  truthy key = false → remember uid key env oid st = st.
Proof. unfold remember. destruct key as [k|]; [|done]. by intros ->. Qed.

Lemma recent_order_falsy uid key now cache :
  truthy key = false → recent_order uid key now cache = None.
Proof. unfold recent_order. destruct key as [k|]; [|done]. by intros ->. Qed.

Lemma fire_timers_tables now st :
  products (fire_timers now st) = products st ∧
  orders (fire_timers now st) = orders st.
Proof. done. Qed.

(** ** The three ways [create] ends *)

(** A replay: answered from the cache, nothing written. *)
Lemma create_replay dto uid key env st oid :
  recent_order uid key (now_check env) (recentOrders st) = Some oid →
  create dto uid key env st =
  (Returned (view_items_only oid <$> orders st !! oid), st).
Proof. intros H. unfold create, create_begin. by rewrite H. Qed.

(** An exception: nothing written. *)
Lemma create_threw dto uid key env st e st' :
  create dto uid key env st = (Threw e, st') → st' = st.
Proof.
  unfold create, create_begin, create_end.
  destruct (recent_order _ _ _ _); [by intros [= <-]|].
  destruct (price_order _ _) as [e'|[total ois]]; [by intros [= <-]|].
  destruct (transaction _ _ _ _ _ _) as [e'|[v s]]; [by intros [= <-]|done].
Qed.

(** A fresh success: priced against the table, committed under a new id. *)
Lemma create_fresh dto uid key env st r st' :
  recent_order uid key (now_check env) (recentOrders st) = None →
  create dto uid key env st = (Returned r, st') →
  ∃ total ois tbl,
    price_order dto (products st) = inr (total, ois) ∧
    orders st !! db_uuid env = None ∧
    decrement_stock (items dto) (products st) = Some tbl ∧
    let o := mkOrder uid PENDING total (db_now env) ois in
    r = Some (view_with_products (products st) (db_uuid env) o) ∧
    st' = remember uid key env (db_uuid env)
            (set_products tbl
               (set_orders (<[db_uuid env := o]> (orders st)) st)).
Proof.
  intros Hfresh. unfold create, create_begin, create_end. rewrite Hfresh.
  destruct (price_order _ _) as [e'|[total ois]]; [done|].
  unfold transaction.
  destruct (orders st !! db_uuid env) eqn:Hid; [done|].
  destruct (decrement_stock _ _) as [tbl|] eqn:Hdec; [|done].
  intros [= <- <-]. exists total, ois, tbl. done.
Qed.

Lemma priced_agree (pm tbl : gmap string Product) its new :
  (∀ d, d ∈ its → pm !! productId d = tbl !! productId d) →
  Forall2 (priced pm) its new → Forall2 (priced tbl) its new.
Proof.
  intros Hagree HF. revert Hagree.
  induction HF as [|d it its new (p & Hp & Hq & Hs & ->) _ IH]; intros Hagree.
  - constructor.
  - constructor.
    + exists p. rewrite <- Hagree by apply list_elem_of_here. done.
    + apply IH. intros d' Hd'. apply Hagree. by apply list_elem_of_further.
Qed.

(** What a successful pricing says about the request and the table. *)
Lemma price_order_inr dto (tbl : gmap string Product) total ois :
  price_order dto tbl = inr (total, ois) →
  items dto ≠ [] ∧
  NoDup (map productId (items dto)) ∧
  all_active (map productId (items dto)) tbl ∧
  total = sum_lines ois ∧
  Forall2 (priced tbl) (items dto) ois.
Proof.
  intros H.
  destruct (decide (items dto = [])) as [He|Hne].
  { by rewrite price_order_empty in H. }
  destruct (decide (length (findByIds (map productId (items dto)) tbl) =
                    length (map productId (items dto)))) as [Hlen|Hlen];
    cycle 1.
  { rewrite price_order_not_found in H; [done|done|].
    by rewrite <- findByIds_length. }
  apply findByIds_length in Hlen as [Hnd Hall].
  rewrite price_order_resolved in H by done.
  apply price_items_inr in H as (new & Hois & Ht & HF).
  simpl in Hois. subst ois. split_and!; [done|done|done|lia|].
  eapply priced_agree; [|exact HF].
  intros d Hd. by apply active_rows_item.
Qed.

Lemma priced_elem (tbl : gmap string Product) its new d :
  Forall2 (priced tbl) its new → d ∈ its →
  ∃ p, tbl !! productId d = Some p ∧ 0 < qty d ∧ qty d ≤ stock p.
Proof.
  induction 1 as [|d' it its new (p & Hp & Hq & Hs & _) _ IH]; intros Hd.
  - by apply elem_of_nil in Hd.
  - apply elem_of_cons in Hd as [->|Hd]; [by exists p|by apply IH].
Qed.

(** ** Stock accounting, one call *)

Section OneCall.
Context (dto : CreateOrderDto) (uid : string) (key : option string)
        (env : Env) (st : State).

(** A replay changes no table. *)
Lemma create_replay_state oid :
  recent_order uid key (now_check env) (recentOrders st) = Some oid →
  (create dto uid key env st).2 = st.
Proof. intros H. by rewrite (create_replay _ _ _ _ _ _ H). Qed.

(** After a fresh success every row of the table is the old row with the
    requested quantity taken off. *)
Lemma create_fresh_products r st' k :
  recent_order uid key (now_check env) (recentOrders st) = None →
  create dto uid key env st = (Returned r, st') →
  products st' !! k =
  decrement (requested k (items dto)) <$> products st !! k.
Proof.
  intros Hfresh Hc.
  destruct (create_fresh _ _ _ _ _ _ _ Hfresh Hc)
    as (total & ois & tbl & _ & _ & Hdec & _ & ->).
  destruct (remember_tables uid key env (db_uuid env)
              (set_products tbl
                 (set_orders
                    (<[db_uuid env :=
                         mkOrder uid PENDING total (db_now env) ois]>
                       (orders st)) st))) as [-> _].
  simpl. by apply decrement_stock_lookup.
Qed.

Lemma create_fresh_item r st' d :
  recent_order uid key (now_check env) (recentOrders st) = None →
  create dto uid key env st = (Returned r, st') →
  d ∈ items dto →
  ∃ p, products st !! productId d = Some p ∧
       0 < qty d ∧ qty d ≤ stock p ∧
       products st' !! productId d = Some (decrement (qty d) p).
Proof.
  intros Hfresh Hc Hd.
  rewrite (create_fresh_products _ _ _ Hfresh Hc).
  destruct (create_fresh _ _ _ _ _ _ _ Hfresh Hc)
    as (total & ois & tbl & Hprice & _).
  apply price_order_inr in Hprice as (_ & Hnd & _ & _ & HF).
  destruct (priced_elem _ _ _ _ HF Hd) as (p & Hp & Hq & Hs).
  exists p. rewrite Hp, requested_NoDup by done. done.
Qed.

Lemma create_fresh_other r st' k :
  recent_order uid key (now_check env) (recentOrders st) = None →
  create dto uid key env st = (Returned r, st') →
  k ∉ map productId (items dto) →
  products st' !! k = products st !! k.
Proof.
  intros Hfresh Hc Hk.
  rewrite (create_fresh_products _ _ _ Hfresh Hc).
  rewrite requested_absent by done.
  destruct (products st !! k); [|done]. simpl. by rewrite decrement_0.
Qed.

(** Stock stays non-negative over one call. *)
Lemma create_stock_nonneg :
  stock_nonneg st → stock_nonneg (create dto uid key env st).2.
Proof.
  intros Hinv.
  destruct (recent_order uid key (now_check env) (recentOrders st))
    as [oid|] eqn:Hrec.
  { by rewrite (create_replay_state oid). }
  destruct (create dto uid key env st) as [[r|e] st'] eqn:Hc; cycle 1.
  { by rewrite (create_threw _ _ _ _ _ _ _ Hc). }
  simpl. intros k p' Hp'.
  destruct (decide (k ∈ map productId (items dto))) as [Hin|Hnin].
  - apply list_elem_of_fmap in Hin as (d & -> & Hd).
    destruct (create_fresh_item _ _ _ Hrec Hc Hd) as (p & _ & _ & Hs & Hp).
    rewrite Hp in Hp'. injection Hp' as <-. simpl. lia.
  - rewrite (create_fresh_other _ _ _ Hrec Hc Hnin) in Hp'.
    by apply (Hinv k).
Qed.

(** Stock plus the quantity held by stored orders is conserved. *)
Lemma create_conserves k :
  stock_of k (create dto uid key env st).2 +
    ordered_qty k (orders (create dto uid key env st).2) =
  stock_of k st + ordered_qty k (orders st).
Proof.
  destruct (recent_order uid key (now_check env) (recentOrders st))
    as [oid|] eqn:Hrec.
  { by rewrite (create_replay_state oid). }
  destruct (create dto uid key env st) as [[r|e] st'] eqn:Hc; cycle 1.
  { by rewrite (create_threw _ _ _ _ _ _ _ Hc). }
  simpl. unfold stock_of.
  rewrite (create_fresh_products _ _ _ Hrec Hc).
  destruct (create_fresh _ _ _ _ _ _ _ Hrec Hc)
    as (total & ois & tbl & Hprice & Hid & _ & _ & ->).
  destruct (remember_tables uid key env (db_uuid env)
              (set_products tbl
                 (set_orders
                    (<[db_uuid env :=
                         mkOrder uid PENDING total (db_now env) ois]>
                       (orders st)) st))) as [_ ->].
  simpl. rewrite ordered_qty_insert by done. simpl.
  apply price_order_inr in Hprice as (_ & _ & Hall & _ & HF).
  rewrite (line_qty_priced _ _ _ _ HF).
  destruct (products st !! k) as [p|] eqn:Hp; simpl; [lia|].
  rewrite requested_absent; [lia|].
  intros Hin. destruct (Hall k Hin) as (p & Hp' & _). congruence.
Qed.
End OneCall.

Lemma run_stock_nonneg rs st :
  stock_nonneg st → stock_nonneg (run rs st).2.
Proof.
  revert st. induction rs as [|r rest IH]; intros st Hinv; [done|].
  simpl. destruct (serve r st) as [out st1] eqn:Hs.
  specialize (IH st1). destruct (run rest st1) as [outs st2]. simpl in *.
  apply IH. replace st1 with (serve r st).2 by by rewrite Hs.
  unfold serve. apply create_stock_nonneg. exact Hinv.
Qed.

Lemma run_conserves rs st k :
  stock_of k (run rs st).2 + ordered_qty k (orders (run rs st).2) =
  stock_of k st + ordered_qty k (orders st).
Proof.
  revert st. induction rs as [|r rest IH]; intros st; [done|].
  simpl. destruct (serve r st) as [out st1] eqn:Hs.
  specialize (IH st1). destruct (run rest st1) as [outs st2]. simpl in *.
  rewrite IH. replace st1 with (serve r st).2 by by rewrite Hs.
  unfold serve. rewrite create_conserves. done.
Qed.

(** Orders are only ever added. *)
Lemma create_orders_grow dto uid key env st :
  orders st ⊆ orders (create dto uid key env st).2.
Proof.
  destruct (recent_order uid key (now_check env) (recentOrders st))
    as [oid|] eqn:Hrec.
  { by rewrite (create_replay_state _ _ _ _ _ oid). }
  destruct (create dto uid key env st) as [[r|e] st'] eqn:Hc; cycle 1.
  { by rewrite (create_threw _ _ _ _ _ _ _ Hc). }
  destruct (create_fresh _ _ _ _ _ _ _ Hrec Hc)
    as (total & ois & tbl & _ & Hid & _ & _ & ->).
  simpl.
  destruct (remember_tables uid key env (db_uuid env)
              (set_products tbl
                 (set_orders
                    (<[db_uuid env :=
                         mkOrder uid PENDING total (db_now env) ois]>
                       (orders st)) st))) as [_ ->].
  simpl. by apply insert_subseteq.
Qed.

Lemma run_orders_grow rs st : orders st ⊆ orders (run rs st).2.
Proof.
  revert st. induction rs as [|r rest IH]; intros st; [done|].
  simpl. destruct (serve r st) as [out st1] eqn:Hs.
  specialize (IH st1). destruct (run rest st1) as [outs st2]. simpl in *.
  etrans; [|exact IH]. replace st1 with (serve r st).2 by by rewrite Hs.
  unfold serve. apply (create_orders_grow _ _ _ _ (fire_timers _ st)).
Qed.

(** ** Which exception, and for which item *)

Lemma string_app_assoc (a b c : string) : (a +:+ b) +:+ c = a +:+ (b +:+ c).
Proof.
  induction a as [|x a IH]; [reflexivity|].
  change (String x ((a +:+ b) +:+ c) = String x (a +:+ b +:+ c)).
  by rewrite IH.
Qed.

Lemma string_app_empty_r (a : string) : a +:+ "" = a.
Proof.
  induction a as [|x a IH]; [reflexivity|].
  change (String x (a +:+ "") = String x a). by rewrite IH.
Qed.

Lemma insufficient_stock_message_mentions (p : Product) (n : Z) :
  mentions (insufficient_stock_message p n) (title p) ∧
  mentions (insufficient_stock_message p n) (pretty (stock p)) ∧
  mentions (insufficient_stock_message p n) (pretty n).
Proof.
  unfold insufficient_stock_message. split_and!.
  - by eexists _, _.
  - exists ("Insufficient stock for " +:+ title p +:+ ". Available: "),
      (", Requested: " +:+ pretty n).
    by rewrite !string_app_assoc.
  - exists ("Insufficient stock for " +:+ title p +:+ ". Available: "
            +:+ pretty (stock p) +:+ ", Requested: "), "".
    by rewrite !string_app_assoc, string_app_empty_r.
Qed.

Lemma all_active_Forall (ids : list string) (tbl : gmap string Product) :
  all_active ids tbl ↔ Forall (resolves tbl) ids.
Proof.
  rewrite Forall_forall. unfold all_active, resolves.
  split; intros H k Hk; specialize (H k Hk).
  - destruct H as (p & -> & Hact). simpl. by rewrite Hact.
  - destruct (tbl !! k) as [p|]; [|done]. exists p. simpl in H. naive_solver.
Qed.

(** Some id does not resolve: the length check rejects, whatever else the
    request holds. *)
Lemma price_order_unresolved dto (tbl : gmap string Product) d :
  d ∈ items dto → ¬ resolves tbl (productId d) →
  price_order dto tbl = inl products_not_found_error.
Proof.
  intros Hd Hbad. apply price_order_not_found.
  - intros He. rewrite He in Hd. by apply elem_of_nil in Hd.
  - intros [_ Hall]. apply all_active_Forall in Hall.
    rewrite Forall_forall in Hall. apply Hbad, Hall.
    apply list_elem_of_fmap. by exists d.
Qed.

(** Some id occurs twice: the length check rejects as well. *)
Lemma price_order_duplicate dto (tbl : gmap string Product) :
  ¬ NoDup (map productId (items dto)) →
  price_order dto tbl = inl products_not_found_error.
Proof.
  intros Hdup. apply price_order_not_found; [|tauto].
  intros He. apply Hdup. rewrite He. constructor.
Qed.

Lemma item_check_agree (pm tbl : gmap string Product) d :
  pm !! productId d = tbl !! productId d →
  item_check pm d = item_check tbl d.
Proof. unfold item_check. by intros ->. Qed.

(** With distinct ids that all resolve, the first offending item decides. *)
Lemma price_order_first_error dto (tbl : gmap string Product) pre d post e :
  items dto = pre ++ d :: post →
  NoDup (map productId (items dto)) →
  all_active (map productId (items dto)) tbl →
  Forall (fun d' => item_check tbl d' = None) pre →
  item_check tbl d = Some e →
  price_order dto tbl = inl e.
Proof.
  intros Hits Hnd Hall Hpre Hd.
  rewrite price_order_resolved; [|by rewrite Hits; destruct pre|done|done].
  assert (∀ d', d' ∈ items dto →
            item_check (active_rows (map productId (items dto)) tbl) d' =
            item_check tbl d') as Hagree.
  { intros d' Hd'. apply item_check_agree. by apply active_rows_item. }
  rewrite Hits at 2. apply price_items_first_error.
  - rewrite Forall_forall in Hpre |- *. intros d' Hd'.
    rewrite Hagree; [by apply Hpre|]. rewrite Hits.
    apply elem_of_app. by left.
  - rewrite Hagree; [done|]. rewrite Hits.
    apply elem_of_app. right. apply list_elem_of_here.
Qed.

Lemma price_items_inl (pm : gmap string Product) its total acc e :
  price_items pm its total acc = inl e →
  ∃ d, d ∈ its ∧ item_check pm d = Some e.
Proof.
  revert total acc. induction its as [|d rest IH]; intros total acc H.
  - done.
  - rewrite price_items_step in H.
    destruct (item_check pm d) as [e'|] eqn:Hc.
    + injection H as <-. exists d. split; [apply list_elem_of_here|done].
    + apply item_check_None in Hc as (p & Hp & _). rewrite Hp in H.
      apply IH in H as (d' & Hd' & Hc'). exists d'.
      split; [by apply list_elem_of_further|done].
Qed.

(** The exceptions of the validation stage: the empty-list error, the
    not-found error of the length check, or the quantity or stock error of
    an item whose product was found.  The [Product ... not found] of the
    loop is never among them. *)
Lemma price_order_inl dto (tbl : gmap string Product) e :
  price_order dto tbl = inl e →
  (items dto = [] ∧ e = empty_order_error) ∨
  (items dto ≠ [] ∧
   ¬ (NoDup (map productId (items dto)) ∧
      all_active (map productId (items dto)) tbl) ∧
   e = products_not_found_error) ∨
  (NoDup (map productId (items dto)) ∧
   all_active (map productId (items dto)) tbl ∧
   ∃ d p, d ∈ items dto ∧ tbl !! productId d = Some p ∧
          ((qty d ≤ 0 ∧ e = quantity_error) ∨
           (0 < qty d ∧ stock p < qty d ∧
            e = insufficient_stock_error p (qty d)))).
Proof.
  intros H.
  destruct (decide (items dto = [])) as [He|Hne].
  { rewrite price_order_empty in H by done. left. by injection H as <-. }
  right.
  destruct (decide (length (findByIds (map productId (items dto)) tbl) =
                    length (map productId (items dto)))) as [Hlen|Hlen];
    cycle 1.
  { rewrite <- findByIds_length. left.
    rewrite price_order_not_found in H;
      [by injection H as <-|done|by rewrite <- findByIds_length]. }
  right. apply findByIds_length in Hlen as [Hnd Hall].
  split; [done|]. split; [done|].
  rewrite price_order_resolved in H by done.
  apply price_items_inl in H as (d & Hd & Hc).
  rewrite (item_check_agree _ tbl) in Hc by by apply active_rows_item.
  assert (productId d ∈ map productId (items dto)) as Hin.
  { apply list_elem_of_fmap. by exists d. }
  destruct (Hall _ Hin) as (p & Hp & _).
  exists d, p. split; [done|]. split; [done|].
  unfold item_check in Hc. rewrite Hp in Hc.
  destruct (Z.leb_spec (qty d) 0).
  - left. split; [done|]. by injection Hc as <-.
  - destruct (Z.ltb_spec (stock p) (qty d)); [|done].
    right. split; [done|]. split; [done|]. by injection Hc as <-.
Qed.

(** The exceptions of [create]: those of validation, or the unique-key or
    missing-row error of the transaction. *)
Lemma create_threw_cases dto uid key env st e st' :
  create dto uid key env st = (Threw e, st') →
  price_order dto (products st) = inl e ∨
  e = PrismaError "P2002" ∨ e = PrismaError "P2025".
Proof.
  unfold create, create_begin, create_end.
  destruct (recent_order _ _ _ _); [done|].
  destruct (price_order _ _) as [e'|[total ois]]; [intros [= <- _]; by left|].
  unfold transaction. destruct (orders st !! db_uuid env).
  { intros [= <- _]. right. by left. }
  destruct (decrement_stock _ _); [done|].
  intros [= <- _]. right. by right.
Qed.

(** A validation error is what [create] throws, with the state untouched,
    unless the call is answered from the cache. *)
Lemma create_rejects dto uid key env st e :
  recent_order uid key (now_check env) (recentOrders st) = None →
  price_order dto (products st) = inl e →
  create dto uid key env st = (Threw e, st).
Proof.
  intros Hrec Hprice. unfold create, create_begin. by rewrite Hrec, Hprice.
Qed.

(** The texts of the validation errors differ from one another at their
    first letter. *)
Lemma item_not_found_is_no_validation_error k (p : Product) (n : Z) :
  let e := BadRequestException ("Product " +:+ k +:+ " not found") in
  e ≠ empty_order_error ∧ e ≠ products_not_found_error ∧
  e ≠ quantity_error ∧ e ≠ insufficient_stock_error p n.
Proof. split_and!; intros [= H]. Qed.

Lemma products_not_found_is_no_item_error (p : Product) (n : Z) :
  products_not_found_error ≠ empty_order_error ∧
  products_not_found_error ≠ quantity_error ∧
  products_not_found_error ≠ insufficient_stock_error p n.
Proof. split_and!; intros [= H]. Qed.

(** ** The idempotency cache and its timers *)

Lemma truthy_nonempty (k : string) : k ≠ "" → truthy (Some k) = true.
Proof. by destruct k. Qed.


Lemma foldl_delete_lookup_Some (l : list (Z * string))
    (m : gmap string CacheEntry) (ck : string) (e : CacheEntry) :
  foldl (fun m t => delete t.2 m) m l !! ck = Some e → m !! ck = Some e.
Proof.
  revert m. induction l as [|t l IH]; intros m H; [done|].
  simpl in H. apply IH in H. by apply lookup_delete_Some in H as [_ H].
Qed.


(** Timers only delete. *)
Lemma fire_timers_only_deletes now st ck e :
  recentOrders (fire_timers now st) !! ck = Some e →
  recentOrders st !! ck = Some e.
Proof. unfold fire_timers. simpl. apply foldl_delete_lookup_Some. Qed.

(** The state a fresh success with a token leaves behind. *)
Lemma create_fresh_cache dto uid k env st r st' :
  k ≠ "" →
  recent_order uid (Some k) (now_check env) (recentOrders st) = None →
  create dto uid (Some k) env st = (Returned r, st') →
  ∃ o, r = Some (view_with_products (products st) (db_uuid env) o) ∧
       orders st !! db_uuid env = None ∧
       orders st' = <[db_uuid env := o]> (orders st) ∧
       recentOrders st' =
         <[cache_key uid k := mkCacheEntry (now_record env) (db_uuid env)]>
           (recentOrders st) ∧
       timers st' =
         timers st ++ [(now_record env + 10000, cache_key uid k)].
Proof.
  intros Hk Hrec Hc.
  destruct (create_fresh _ _ _ _ _ _ _ Hrec Hc)
    as (total & ois & tbl & _ & Hid & _ & Hr & ->).
  eexists. split; [exact Hr|]. split; [done|].
  unfold remember. rewrite truthy_nonempty by done. done.
Qed.


(** The fields and rows the two response shapes share. *)
Lemma view_items_only_rows oid o :
  map iv_item (v_items (view_items_only oid o)) = order_items o.
Proof.
  unfold view_items_only. simpl. rewrite map_map. simpl. apply map_id.
Qed.

Lemma view_with_products_rows tbl oid o :
  map iv_item (v_items (view_with_products tbl oid o)) = order_items o.
Proof.
  unfold view_with_products. simpl. rewrite map_map. simpl. apply map_id.
Qed.

(** ** The transaction does not look at the stock *)

(** Whatever the stock, the transaction of a single-item order under a
    fresh id commits and takes the quantity off. *)
Lemma transaction_ignores_stock uid k n total ois env st p :
  orders st !! db_uuid env = None →
  products st !! k = Some p →
  ∃ v st',
    transaction uid [mkItemDto k n] total ois env st = inr (v, st') ∧
    products st' !! k = Some (decrement n p).
Proof.
  intros Hid Hp. unfold transaction. rewrite Hid. simpl. rewrite Hp.
  eexists _, _. split; [done|]. simpl. apply lookup_insert_eq.
Qed.

(** ** Order query layer *)

Lemma visible_non_admin user uid o :
  non_admin user uid → visible user o = true ↔ userId o = uid.
Proof.
  intros [Hrole Hid]. unfold visible. rewrite Hid.
  destruct (user_role user); [done|]. apply bool_decide_eq_true.
Qed.

Lemma own_orders_lookup user st oid o :
  own_orders user st !! oid = Some o ↔
  orders st !! oid = Some o ∧ visible user o = true.
Proof. unfold own_orders. by rewrite map_lookup_filter_Some. Qed.

Lemma matching_orders_own user st :
  matching_orders user st = merge_sort newer_first (map_to_list (own_orders user st)).
Proof. done. Qed.

Lemma elem_of_matching_orders user st oid o :
  (oid, o) ∈ matching_orders user st ↔
  orders st !! oid = Some o ∧ visible user o = true.
Proof.
  rewrite matching_orders_own, merge_sort_Permutation.
  by rewrite elem_of_map_to_list, own_orders_lookup.
Qed.

(** A page holds rows of the list it is cut from. *)
Lemma window_subseteq {A : Type} (skip take : Z) (l found : list A) :
  window skip take l = inr found → found ⊆ l.
Proof.
  unfold window. destruct (skip <? 0); [done|].
  destruct (0 <=? take); intros [= <-].
  - etrans; [apply subseteq_take|apply subseteq_drop].
  - intros x Hx. rewrite elem_of_reverse in Hx.
    apply subseteq_take, subseteq_drop in Hx. by rewrite elem_of_reverse in Hx.
Qed.

(** What [findOne] answers is decided by the rows the caller may see. *)
Lemma findOne_own user oid st :
  findOne oid user st =
  match own_orders user st !! oid with
  | Some o => Returned (view_with_products (products st) oid o)
  | None => Threw (order_not_found oid)
  end.
Proof.
  unfold findOne.
  destruct (own_orders user st !! oid) as [o|] eqn:Hown.
  - apply own_orders_lookup in Hown as [-> ->]. done.
  - destruct (orders st !! oid) as [o|] eqn:Ho; [|done].
    destruct (visible user o) eqn:Hv; [|done].
    assert (own_orders user st !! oid = Some o) as Hown'
      by by apply own_orders_lookup.
    congruence.
Qed.

(** ** Status update *)

Lemma updateStatus_found oid dto st o :
  orders st !! oid = Some o →
  updateStatus oid dto st =
  (Returned (view_with_products (products st) oid
               (with_status (new_status dto) o)),
   set_orders (<[oid := with_status (new_status dto) o]> (orders st)) st).
Proof. intros Ho. unfold updateStatus, findOne. rewrite Ho. done. Qed.

Lemma updateStatus_missing oid dto st :
  orders st !! oid = None →
  updateStatus oid dto st = (Threw (order_not_found oid), st).
Proof. intros Ho. unfold updateStatus, findOne. by rewrite Ho. Qed.

(** A single unit of an active product in stock passes validation. *)
Lemma create_begin_single_unit uid now st k p :
  products st !! k = Some p → isActive p = true → 1 ≤ stock p →
  create_begin (mkCreateOrderDto [mkItemDto k 1]) uid None now st =
  Commit (priceFils p * 1) [line_of p (mkItemDto k 1)].
Proof.
  intros Hp Hact Hs. unfold create_begin. simpl recent_order. cbv iota.
  set (dto := mkCreateOrderDto [mkItemDto k 1]).
  assert (all_active (map productId (items dto)) (products st)) as Hall.
  { intros k' Hk'. simpl in Hk'. apply list_elem_of_singleton in Hk'.
    subst k'. by exists p. }
  rewrite price_order_resolved; [|done|apply NoDup_singleton|done].
  assert (active_rows [k] (products st) !! k = Some p) as Hrow.
  { apply active_rows_lookup. split_and!; [done|apply list_elem_of_here|done]. }
  subst dto. cbn [items map productId price_items qty]. rewrite Hrow.
  change (1 <=? 0) with false. cbv iota.
  by destruct (Z.ltb_spec (stock p) 1); [lia|].
Qed.

(** Every call that holds a priced single-item order commits, whatever
    the stock has become by then. *)
Lemma finish_all_commits k n total ois calls :
  NoDup (map (fun c : string * Env * Pending => db_uuid c.1.2) calls) →
  Forall (fun c : string * Env * Pending => c.2 = Commit total ois) calls →
  ∀ st q,
    Forall (fun c : string * Env * Pending =>
              orders st !! db_uuid c.1.2 = None) calls →
    products st !! k = Some q →
    Forall (fun out => ∃ v, out = Returned (Some v))
      (finish_all (mkCreateOrderDto [mkItemDto k n]) calls st).1 ∧
    length (finish_all (mkCreateOrderDto [mkItemDto k n]) calls st).1 =
      length calls ∧
    products (finish_all (mkCreateOrderDto [mkItemDto k n]) calls st).2 !! k =
      Some (decrement (Z.of_nat (length calls) * n) q).
Proof.
  induction calls as [|[[uid env] p] rest IH]; intros Hnd Hpend st q Hfresh Hq.
  - simpl. split_and!; [constructor|done|]. by rewrite decrement_0.
  - apply NoDup_cons in Hnd as [Hnin Hnd].
    apply Forall_cons in Hpend as [Hp Hpend]. simpl in Hp. subst p.
    apply Forall_cons in Hfresh as [Hid Hfresh]. simpl in Hid.
    cbn [finish_all create_end]. unfold transaction. rewrite Hid.
    cbn [items decrement_stock productId qty]. rewrite Hq.
    cbn [remember v_id].
    set (st1 := set_products _ _).
    specialize (IH Hnd Hpend st1 (decrement n q)).
    destruct IH as (Hall & Hlen & Hstock).
    { apply Forall_forall. intros c Hc. subst st1. simpl.
      rewrite lookup_insert_ne.
      - rewrite Forall_forall in Hfresh. by apply Hfresh.
      - intros Heq. apply Hnin. simpl. rewrite Heq.
        apply list_elem_of_fmap. by exists c. }
    { subst st1. simpl. apply lookup_insert_eq. }
    destruct (finish_all _ rest st1) as [outs st2]. simpl in *.
    split_and!.
    + constructor; [by eexists|done].
    + by rewrite Hlen.
    + rewrite Hstock, decrement_decrement. do 2 f_equal. lia.
Qed.

(** However many callers race for a product with at least one unit, all
    of them succeed, and the stock falls by their number. *)
Lemma race_all_succeed k p callers st :
  products st !! k = Some p → isActive p = true → 1 ≤ stock p →
  NoDup (map (fun c : string * Env => db_uuid c.2) callers) →
  Forall (fun c : string * Env => orders st !! db_uuid c.2 = None) callers →
  Forall (fun out => ∃ v, out = Returned (Some v))
    (race (mkCreateOrderDto [mkItemDto k 1]) callers st).1 ∧
  length (race (mkCreateOrderDto [mkItemDto k 1]) callers st).1 =
    length callers ∧
  stock_of k (race (mkCreateOrderDto [mkItemDto k 1]) callers st).2 =
    stock p - Z.of_nat (length callers).
Proof.
  intros Hp Hact Hs Hnd Hfresh. unfold race.
  set (calls := map _ callers).
  destruct (finish_all_commits k 1 (priceFils p * 1)
              [line_of p (mkItemDto k 1)] calls) with (st := st) (q := p)
    as (Hall & Hlen & Hstock).
  - subst calls. by rewrite map_map.
  - subst calls. apply Forall_map, Forall_forall. intros c _. simpl.
    by apply create_begin_single_unit.
  - subst calls. apply Forall_map. exact Hfresh.
  - done.
  - split_and!; [done|by rewrite Hlen; subst calls; rewrite length_map|].
    unfold stock_of. rewrite Hstock. simpl. subst calls.
    rewrite length_map. lia.
Qed.

(** * The claims *)

(** ** Stock accounting over runs *)

(** X29. Stock accounting for placements in turn.  For calls of [create]
    that run one after the other, each call finishing before the next
    begins: from a state in which every product's stock is non-negative,
    every such run ends in such a state; over the run the stock of each
    product falls by exactly the quantity held by the orders the run stored,
    and no stored order is lost.  For a single call: a fresh success takes
    off every ordered product exactly its ordered quantity and leaves the
    other products alone; a replay and a rejection leave the product table
    unchanged.  (Calls that overlap are the subject of C1 and C2.) *)
Theorem stock_nonneg_and_exact_accounting (rs : list Request) (st : State) :
  stock_nonneg st →
  stock_nonneg (run rs st).2 ∧
  (∀ k, stock_of k (run rs st).2 =
        stock_of k st -
        (ordered_qty k (orders (run rs st).2) - ordered_qty k (orders st))) ∧
  orders st ⊆ orders (run rs st).2 ∧
  (∀ dto uid key env s out s',
     create dto uid key env s = (out, s') →
     match out, recent_order uid key (now_check env) (recentOrders s) with
     | Returned _, None =>
         (∀ d, d ∈ items dto →
               0 < qty d ∧
               stock_of (productId d) s' = stock_of (productId d) s - qty d) ∧
         (∀ k, k ∉ map productId (items dto) →
               products s' !! k = products s !! k)
     | _, _ => products s' = products s
     end).
Proof.
  intros Hinv. split_and!.
  - by apply run_stock_nonneg.
  - intros k. pose proof (run_conserves rs st k). lia.
  - apply run_orders_grow.
  - intros dto uid key env s out s' Hc.
    destruct (recent_order uid key (now_check env) (recentOrders s))
      as [oid|] eqn:Hrec.
    { pose proof (create_replay_state dto uid key env s oid Hrec) as Hs.
      rewrite Hc in Hs. simpl in Hs. subst s'. by destruct out. }
    destruct out as [r|e]; cycle 1.
    { by rewrite (create_threw _ _ _ _ _ _ _ Hc). }
    split.
    + intros d Hd.
      destruct (create_fresh_item _ _ _ _ _ _ _ _ Hrec Hc Hd)
        as (p & Hp & Hq & _ & Hp').
      unfold stock_of. rewrite Hp, Hp'. done.
    + intros k Hk. by apply (create_fresh_other _ _ _ _ _ _ _ _ Hrec Hc).
Qed.

Lemma stock_nonneg_and_exact_accounting_witness :
  stock_nonneg demo_state ∧
  stock_nonneg (run demo_requests demo_state).2 ∧
  stock_of "prod-P" (run demo_requests demo_state).2 = 3.
Proof.
  assert (stock_nonneg demo_state) as H.
  { apply (bool_decide_unpack _). vm_compute. exact I. }
  split; [exact H|]. split.
  - exact (proj1 (stock_nonneg_and_exact_accounting demo_requests demo_state H)).
  - reflexivity.
Defined.

(** ** Success postcondition *)

(** C4. Success postcondition of a placement.  Every order a call of
    [create] adds to the store is PENDING and owned by the caller, is the
    order the call returns, has one line per request item, in order, whose
    unit price is the catalog price at the time of the call and whose line
    total is the exact product of that price and the requested quantity,
    and has a total equal to the sum of its line totals. *)
Theorem created_order_is_pending_and_priced
    dto uid key env st out st' oid o :
  create dto uid key env st = (out, st') →
  orders st !! oid = None →
  orders st' !! oid = Some o →
  status o = PENDING ∧
  userId o = uid ∧
  out = Returned (Some (view_with_products (products st) oid o)) ∧
  Forall2
    (fun d it =>
       item_productId it = productId d ∧
       item_qty it = qty d ∧
       ∃ p, products st !! productId d = Some p ∧
            unitPriceFils it = priceFils p ∧
            lineTotalFils it = priceFils p * qty d)
    (items dto) (order_items o) ∧
  totalFils o = sum_lines (order_items o).
Proof.
  intros Hc Hold Hnew.
  destruct (recent_order uid key (now_check env) (recentOrders st))
    as [rid|] eqn:Hrec.
  { pose proof (create_replay_state dto uid key env st rid Hrec) as Hs.
    rewrite Hc in Hs. simpl in Hs. subst st'. congruence. }
  destruct out as [r|e]; cycle 1.
  { rewrite (create_threw _ _ _ _ _ _ _ Hc) in Hnew. congruence. }
  destruct (create_fresh _ _ _ _ _ _ _ Hrec Hc)
    as (total & ois & tbl & Hprice & Hid & _ & Hr & ->).
  destruct (remember_tables uid key env (db_uuid env)
              (set_products tbl
                 (set_orders
                    (<[db_uuid env :=
                         mkOrder uid PENDING total (db_now env) ois]>
                       (orders st)) st))) as [_ Hos].
  rewrite Hos in Hnew. simpl in Hnew.
  destruct (decide (db_uuid env = oid)) as [<-|Hne]; cycle 1.
  { rewrite lookup_insert_ne in Hnew by done. congruence. }
  rewrite lookup_insert_eq in Hnew. injection Hnew as <-. simpl in *.
  apply price_order_inr in Hprice as (_ & _ & _ & Htot & HF).
  split_and!; [done|done|by rewrite Hr|clear -HF|done].
  induction HF as [|d it its new (p & Hp & _ & _ & ->) _ IH];
    constructor; [|done].
  simpl. split_and!; [done|done|]. by exists p.
Qed.

Lemma created_order_is_pending_and_priced_witness :
  let env := demo_env 1000 "order-1" in
  let o := mkOrder "alice" PENDING 20250 1000
             [mkOrderItem "prod-P" 2 10000 20000;
              mkOrderItem "prod-Q" 1 250 250] in
  orders (create demo_order "alice" (Some "abc") env demo_state).2
    !! "order-1" = Some o ∧
  totalFils o = sum_lines (order_items o).
Proof.
  intros env o.
  assert (orders (create demo_order "alice" (Some "abc") env demo_state).2
            !! "order-1" = Some o) as Hnew by reflexivity.
  split; [exact Hnew|].
  eapply (created_order_is_pending_and_priced demo_order "alice" (Some "abc")
            env demo_state _ _ "order-1" o).
  - apply surjective_pairing.
  - reflexivity.
  - exact Hnew.
Defined.

(** ** Rejection before side effects *)

(** C7. Rejection before side effects.  A call of [create] that throws
    leaves the state (products, orders, idempotency cache and pending
    timers) exactly as it was; and every rejection by validation (empty
    item list, unresolved product, non-positive quantity, insufficient
    stock) of a call not answered from the cache is thrown by [create]
    with the state unchanged. *)
Theorem rejection_changes_nothing dto uid key env st :
  (∀ e st', create dto uid key env st = (Threw e, st') → st' = st) ∧
  (∀ e, recent_order uid key (now_check env) (recentOrders st) = None →
        price_order dto (products st) = inl e →
        create dto uid key env st = (Threw e, st)).
Proof.
  split.
  - intros e st'. apply create_threw.
  - intros e Hrec Hprice. unfold create, create_begin.
    by rewrite Hrec, Hprice.
Qed.

Lemma rejection_changes_nothing_witness :
  create (mkCreateOrderDto [mkItemDto "prod-P" 10]) "bob" None
    (demo_env 2000 "order-2") demo_state =
  (Threw (BadRequestException
            "Insufficient stock for Widget. Available: 5, Requested: 10"),
   demo_state).
Proof.
  apply (proj2 (rejection_changes_nothing
                  (mkCreateOrderDto [mkItemDto "prod-P" 10]) "bob" None
                  (demo_env 2000 "order-2") demo_state));
    reflexivity.
Defined.

(** ** Error taxonomy *)

(** C5, as stated, fails: a placement rejected for insufficient stock
    throws a [BadRequestException], not a [ConflictException], and one
    that names an unknown or an inactive product throws a
    [BadRequestException] too, not a [NotFoundException]. *)
Lemma rejections_are_not_conflict_or_not_found :
  let out_stock :=
    (create (mkCreateOrderDto [mkItemDto "prod-P" 10]) "bob" None
       (demo_env 2000 "order-2") demo_state).1 in
  let out_unknown :=
    (create (mkCreateOrderDto [mkItemDto "prod-X" 1]) "bob" None
       (demo_env 2000 "order-2") demo_state).1 in
  let out_inactive :=
    (create (mkCreateOrderDto [mkItemDto "prod-R" 1]) "bob" None
       (demo_env 2000 "order-2") demo_state).1 in
  out_stock =
    Threw (BadRequestException
             "Insufficient stock for Widget. Available: 5, Requested: 10") ∧
  (∀ m, out_stock ≠ Threw (ConflictException m)) ∧
  out_unknown =
    Threw (BadRequestException "One or more products not found") ∧
  (∀ m, out_unknown ≠ Threw (NotFoundException m)) ∧
  out_inactive =
    Threw (BadRequestException "One or more products not found") ∧
  (∀ m, out_inactive ≠ Threw (NotFoundException m)).
Proof. vm_compute. split_and!; try reflexivity; intros m [=]. Qed.

(** C5, amended.  For a call that is not answered from the cache: when the
    first offending item asks for more than the stock of its product,
    [create] throws a [BadRequestException] whose message holds the title
    of the product, its available stock and the requested quantity (both
    safe integers, which the template literal prints as decimal
    numerals); when
    some item names a product that is unknown or inactive, [create] throws
    the [BadRequestException] "One or more products not found"; in both
    cases the state is unchanged.  [create] never throws a
    [ConflictException] or a [NotFoundException]. *)
Theorem rejections_are_bad_requests dto uid key env st :
  recent_order uid key (now_check env) (recentOrders st) = None →
  (∀ pre d post p,
     items dto = pre ++ d :: post →
     NoDup (map productId (items dto)) →
     all_active (map productId (items dto)) (products st) →
     Forall (fun d' => item_check (products st) d' = None) pre →
     products st !! productId d = Some p →
     0 < qty d → stock p < qty d →
     safe_integer (stock p) → safe_integer (qty d) →
     create dto uid key env st =
       (Threw (BadRequestException (insufficient_stock_message p (qty d))),
        st) ∧
     mentions (insufficient_stock_message p (qty d)) (title p) ∧
     mentions (insufficient_stock_message p (qty d)) (pretty (stock p)) ∧
     mentions (insufficient_stock_message p (qty d)) (pretty (qty d))) ∧
  (∀ d, d ∈ items dto → ¬ resolves (products st) (productId d) →
        create dto uid key env st =
          (Threw (BadRequestException "One or more products not found"),
           st)) ∧
  (∀ e st', create dto uid key env st = (Threw e, st') →
            ∀ m, e ≠ ConflictException m ∧ e ≠ NotFoundException m).
Proof.
  intros Hrec. split_and!.
  - intros pre d post p Hits Hnd Hall Hpre Hp Hq Hs _ _.
    split; [|apply insufficient_stock_message_mentions].
    apply create_rejects; [done|].
    apply (price_order_first_error _ _ pre d post); try done.
    unfold item_check. rewrite Hp.
    destruct (Z.leb_spec (qty d) 0); [lia|].
    destruct (Z.ltb_spec (stock p) (qty d)); [done|lia].
  - intros d Hd Hbad. apply create_rejects; [done|].
    by apply (price_order_unresolved _ _ d).
  - intros e st' Hc m.
    destruct (create_threw_cases _ _ _ _ _ _ _ Hc) as [Hp|[->| ->]];
      [|done..].
    apply price_order_inl in Hp
      as [[_ ->]|[(_ & _ & ->)|(_ & _ & d & p & _ & _ & [[_ ->]|(_ & _ & ->)])]];
      done.
Qed.

Lemma rejections_are_bad_requests_witness :
  create (mkCreateOrderDto [mkItemDto "prod-P" 10]) "bob" None
    (demo_env 2000 "order-2") demo_state =
  (Threw (BadRequestException
            "Insufficient stock for Widget. Available: 5, Requested: 10"),
   demo_state).
Proof.
  pose (dto := mkCreateOrderDto [mkItemDto "prod-P" 10]).
  assert (recent_order "bob" None (now_check (demo_env 2000 "order-2"))
            (recentOrders demo_state) = None) as Hrec by reflexivity.
  refine (proj1 (proj1 (rejections_are_bad_requests dto "bob" None
                          (demo_env 2000 "order-2") demo_state Hrec)
                   [] (mkItemDto "prod-P" 10) []
                   (mkProduct "Widget" 10000 5 true) _ _ _ _ _ _ _ _ _)).
  - reflexivity.
  - apply (bool_decide_unpack _). vm_compute. exact I.
  - apply all_active_Forall. apply (bool_decide_unpack _). vm_compute. exact I.
  - constructor.
  - reflexivity.
  - simpl. lia.
  - simpl. lia.
  - unfold safe_integer, MAX_SAFE_INTEGER. simpl. lia.
  - unfold safe_integer, MAX_SAFE_INTEGER. simpl. lia.
Defined.

(** ** Validation order *)

(** C6, as stated, fails: with an earlier item of quantity 0 and a later
    item whose product id is unknown, the error reported is "One or more
    products not found", not the quantity error of the earlier item. *)
Lemma not_found_reported_before_quantity_error :
  let dto := mkCreateOrderDto [mkItemDto "prod-P" 0; mkItemDto "prod-X" 1] in
  let out := (create dto "bob" None (demo_env 2000 "order-2") demo_state).1 in
  out = Threw (BadRequestException "One or more products not found") ∧
  out ≠ Threw (BadRequestException "Quantity must be greater than 0").
Proof. vm_compute. split; [reflexivity|intros [=]]. Qed.

(** C6, amended.  For a call that is not answered from the cache: the
    not-found check comes before the per-item checks, so whenever some
    item names a product that is not an active product the call is
    rejected with "One or more products not found", whatever the
    quantities of the other items; for an item list with pairwise distinct
    product ids the call is rejected with that error exactly when some
    item's product id is not an active product.  Quantity and stock errors
    are then reported for the first offending item in the order of the
    request, and the per-item "Product ... not found" is never reported. *)
Theorem not_found_check_then_first_offending_item dto uid key env st :
  recent_order uid key (now_check env) (recentOrders st) = None →
  (∀ d, d ∈ items dto → ¬ resolves (products st) (productId d) →
        create dto uid key env st = (Threw products_not_found_error, st)) ∧
  (NoDup (map productId (items dto)) →
   ((create dto uid key env st).1 = Threw products_not_found_error ↔
    ∃ d, d ∈ items dto ∧ ¬ resolves (products st) (productId d))) ∧
  (∀ pre d post e,
     items dto = pre ++ d :: post →
     NoDup (map productId (items dto)) →
     all_active (map productId (items dto)) (products st) →
     Forall (fun d' => item_check (products st) d' = None) pre →
     item_check (products st) d = Some e →
     create dto uid key env st = (Threw e, st)) ∧
  (∀ e st' k, create dto uid key env st = (Threw e, st') →
              e ≠ BadRequestException ("Product " +:+ k +:+ " not found")).
Proof.
  intros Hrec.
  assert (∀ d, d ∈ items dto → ¬ resolves (products st) (productId d) →
            create dto uid key env st = (Threw products_not_found_error, st))
    as Hfirst.
  { intros d Hd Hbad. apply create_rejects; [done|].
    by apply (price_order_unresolved _ _ d). }
  split_and!.
  - exact Hfirst.
  - intros Hnd. split.
    + intros Hout.
      destruct (create dto uid key env st) as [out st'] eqn:Hc.
      simpl in Hout. subst out.
      destruct (create_threw_cases _ _ _ _ _ _ _ Hc) as [Hp|[?|?]];
        [|done..].
      apply price_order_inl in Hp
        as [[_ He]|[(_ & Hbad & _)|(_ & _ & d & p & _ & _ & He)]].
      * by destruct (products_not_found_is_no_item_error
                       (mkProduct "" 0 0 true) 0) as (? & _).
      * assert (¬ Forall (resolves (products st))
                    (map productId (items dto))) as Hnot.
        { rewrite <- all_active_Forall. tauto. }
        apply not_Forall_Exists in Hnot; [|apply _].
        apply Exists_exists in Hnot as (k & Hk & Hbad').
        apply list_elem_of_fmap in Hk as (d & -> & Hd). by exists d.
      * destruct (products_not_found_is_no_item_error p (qty d))
          as (_ & ? & ?).
        by destruct He as [[_ He]|(_ & _ & He)].
    + intros (d & Hd & Hbad). by rewrite (Hfirst d Hd Hbad).
  - intros pre d post e Hits Hnd Hall Hpre Hd.
    apply create_rejects; [done|].
    by apply (price_order_first_error _ _ pre d post).
  - intros e st' k Hc.
    destruct (create_threw_cases _ _ _ _ _ _ _ Hc) as [Hp|[->| ->]];
      [|done..].
    apply price_order_inl in Hp
      as [[_ ->]|[(_ & _ & ->)|(_ & _ & d & p & _ & _ & He)]].
    + intros Heq. symmetry in Heq. revert Heq.
      apply (item_not_found_is_no_validation_error k (mkProduct "" 0 0 true) 0).
    + intros Heq. symmetry in Heq. revert Heq.
      apply (item_not_found_is_no_validation_error k (mkProduct "" 0 0 true) 0).
    + destruct (item_not_found_is_no_validation_error k p (qty d))
        as (_ & _ & Hq & Hi).
      destruct He as [[_ ->]|(_ & _ & ->)]; intros Heq; symmetry in Heq; done.
Qed.

Lemma not_found_check_then_first_offending_item_witness :
  create (mkCreateOrderDto [mkItemDto "prod-P" 0; mkItemDto "prod-X" 1])
    "bob" None (demo_env 2000 "order-2") demo_state =
  (Threw products_not_found_error, demo_state).
Proof.
  refine (proj1 (not_found_check_then_first_offending_item
                   (mkCreateOrderDto
                      [mkItemDto "prod-P" 0; mkItemDto "prod-X" 1])
                   "bob" None (demo_env 2000 "order-2") demo_state _)
            (mkItemDto "prod-X" 1) _ _).
  - reflexivity.
  - apply (bool_decide_unpack _). vm_compute. exact I.
  - apply (bool_decide_unpack _). vm_compute. exact I.
Defined.

(** ** Duplicate product ids *)

(** C10, as stated, fails: a call whose item list names the same product
    twice is not rejected when it carries the token of an order placed
    less than five seconds before; it is answered with that order. *)
Lemma duplicate_ids_pass_on_replay :
  let first := mkRequest demo_order "alice" (Some "abc")
                 (demo_env 1000 "order-1") in
  let twice := mkCreateOrderDto [mkItemDto "prod-P" 1; mkItemDto "prod-P" 1] in
  let second := mkRequest twice "alice" (Some "abc")
                  (demo_env 2000 "order-2") in
  ¬ NoDup (map productId (items twice)) ∧
  v_id <$> returned (serve second (serve first demo_state).2).1
  = Some "order-1".
Proof.
  split.
  - apply (bool_decide_unpack _). vm_compute. exact I.
  - vm_compute. reflexivity.
Qed.

(** C10, amended.  Every call that is not answered from the idempotency
    cache and whose item list names the same product id in two or more
    entries is rejected with "One or more products not found", whatever
    the product table holds, and the state is unchanged. *)
Theorem duplicate_ids_are_rejected dto uid key env st :
  recent_order uid key (now_check env) (recentOrders st) = None →
  ¬ NoDup (map productId (items dto)) →
  create dto uid key env st =
  (Threw (BadRequestException "One or more products not found"), st).
Proof.
  intros Hrec Hdup. apply create_rejects; [done|].
  by apply price_order_duplicate.
Qed.

Lemma duplicate_ids_are_rejected_witness :
  create (mkCreateOrderDto [mkItemDto "prod-P" 1; mkItemDto "prod-P" 1])
    "bob" None (demo_env 2000 "order-2") demo_state =
  (Threw (BadRequestException "One or more products not found"), demo_state).
Proof.
  apply duplicate_ids_are_rejected.
  - reflexivity.
  - apply (bool_decide_unpack _). vm_compute. exact I.
Defined.

(** ** Idempotent replay *)




(** Two further ways the replay departs from a fresh success, both left
    out of the amended statement.  The replay is read with
    [include: { items: true }], so its items carry no product summary,
    which the items of a fresh success do. *)
Example replay_omits_product_summaries :
  let first := serve (mkRequest demo_order "alice" (Some "abc")
                        (demo_env 1000 "order-1")) demo_state in
  let again := serve (mkRequest demo_order "alice" (Some "abc")
                        (demo_env 2000 "order-2")) first.2 in
  (map iv_product ∘ v_items) <$> returned first.1 =
    Some [Some (mkSummary "prod-P" "Widget" 10000);
          Some (mkSummary "prod-Q" "Gadget" 250)] ∧
  (map iv_product ∘ v_items) <$> returned again.1 = Some [None; None].
Proof. vm_compute. split; reflexivity. Qed.

(** The timer of an earlier entry deletes by key: it removes the entry a
    later order wrote under the same key, and a third submission 4.5
    seconds after the second order is then placed anew. *)
Example stale_timer_evicts_newer_entry :
  let dto := mkCreateOrderDto [mkItemDto "prod-P" 1] in
  let run3 :=
    run [ mkRequest dto "alice" (Some "abc") (demo_env 0 "order-1");
          mkRequest dto "alice" (Some "abc") (demo_env 6000 "order-2");
          mkRequest dto "alice" (Some "abc") (demo_env 10500 "order-3") ]
      demo_state in
  map (fun out => v_id <$> returned out) run3.1 =
    [Some "order-1"; Some "order-2"; Some "order-3"] ∧
  stock_of "prod-P" run3.2 = 2.
Proof. vm_compute. split; reflexivity. Qed.

(** ** Commit under interleaving *)

(** One after the other, the two placements of the last unit of Q give one
    success and one rejection, and the stock ends at 0. *)
Example placements_in_turn_do_not_oversell :
  let dto := mkCreateOrderDto [mkItemDto "prod-Q" 1] in
  let in_turn :=
    run [ mkRequest dto "alice" None (demo_env 1000 "order-1");
          mkRequest dto "bob" None (demo_env 1000 "order-2") ] demo_state in
  in_turn.1 !! 1%nat =
    Some (Threw (BadRequestException
                   "Insufficient stock for Gadget. Available: 0, Requested: 1")) ∧
  v_id <$> (in_turn.1 !! 0%nat ≫= returned) = Some "order-1" ∧
  stock_of "prod-Q" in_turn.2 = 0.
Proof. vm_compute. split_and!; reflexivity. Qed.

(** C2, evaluated at the failing input.  Product Q has one unit.  Two
    single-unit placements both pass validation against that stock before
    either commits; both transactions then commit, both calls succeed and
    the stock ends at -1: the decrement of the transaction is
    unconditional ([transaction_ignores_stock]), and any number of callers
    that race for a product in stock all succeed ([race_all_succeed]). *)
Theorem interleaved_commits_oversell :
  let dto := mkCreateOrderDto [mkItemDto "prod-Q" 1] in
  let env1 := demo_env 1000 "order-1" in
  let env2 := demo_env 1000 "order-2" in
  let pending1 := create_begin dto "alice" None (now_check env1) demo_state in
  let pending2 := create_begin dto "bob" None (now_check env2) demo_state in
  let end1 := create_end dto "alice" None env1 pending1 demo_state in
  let end2 := create_end dto "bob" None env2 pending2 end1.2 in
  stock_of "prod-Q" demo_state = 1 ∧
  v_id <$> returned end1.1 = Some "order-1" ∧
  v_id <$> returned end2.1 = Some "order-2" ∧
  stock_of "prod-Q" end1.2 = 0 ∧
  stock_of "prod-Q" end2.2 = -1 ∧
  ¬ stock_nonneg end2.2.
Proof.
  vm_compute. split_and!; try reflexivity.
  intros H. specialize (H "prod-Q" (mkProduct "Gadget" 250 (-1) true)).
  apply H; reflexivity.
Qed.

(** C1, evaluated at the failing input.  Product P has five units and no
    stock is negative.  Two placements of three units each both pass the
    stock check against those five units before either commits; both
    transactions then commit, both calls return their order and the stock
    of P ends at -1, so the state no longer has every stock at 0 or above.
    The accounting holds all the same: the stock fell by six, the
    quantity the two stored orders hold. *)
Theorem interleaved_placements_break_stock_invariant :
  let dto := mkCreateOrderDto [mkItemDto "prod-P" 3] in
  let env1 := demo_env 1000 "order-1" in
  let env2 := demo_env 1001 "order-2" in
  let pending1 := create_begin dto "alice" None (now_check env1) demo_state in
  let pending2 := create_begin dto "bob" None (now_check env2) demo_state in
  let end1 := create_end dto "alice" None env1 pending1 demo_state in
  let end2 := create_end dto "bob" None env2 pending2 end1.2 in
  stock_nonneg demo_state ∧
  stock_of "prod-P" demo_state = 5 ∧
  v_id <$> returned end1.1 = Some "order-1" ∧
  v_id <$> returned end2.1 = Some "order-2" ∧
  stock_of "prod-P" end2.2 = -1 ∧
  ¬ stock_nonneg end2.2 ∧
  ordered_qty "prod-P" (orders end2.2) = 6 ∧
  stock_of "prod-P" end2.2 =
    stock_of "prod-P" demo_state - ordered_qty "prod-P" (orders end2.2).
Proof.
  split.
  { apply (bool_decide_unpack _). vm_compute. exact I. }
  vm_compute. split_and!; try reflexivity.
  intros H. specialize (H "prod-P" (mkProduct "Widget" 10000 (-1) true)).
  apply H; reflexivity.
Qed.

(** ** Visibility *)

(** C8. Visibility isolation.  For a caller that is not an admin: every
    order on every page [findAll] returns, for every page and limit, is a
    stored order of the caller, and the reported total counts the
    caller's orders only; [findOne] on an order of another buyer throws
    the same [NotFoundException] as on an id that does not exist; and what
    [findAll] and [findOne] answer does not depend on the orders of other
    buyers at all: two stores with the same products and the same orders
    of the caller give the same answers. *)
Theorem visibility_isolation (user : AuthUser) (uid : string) (st : State) :
  non_admin user uid →
  (∀ pg found,
     findAll pg user st = Returned found →
     Forall (fun v => v_userId v = uid ∧
                      ∃ o, orders st !! v_id v = Some o ∧ userId o = uid)
       (data found) ∧
     meta_total found = Z.of_nat (size (own_orders user st))) ∧
  (∀ oid o, orders st !! oid = Some o → userId o ≠ uid →
            findOne oid user st = Threw (order_not_found oid)) ∧
  (∀ oid, orders st !! oid = None →
          findOne oid user st = Threw (order_not_found oid)) ∧
  (∀ st2, products st2 = products st →
          own_orders user st2 = own_orders user st →
          (∀ pg, findAll pg user st2 = findAll pg user st) ∧
          (∀ oid, findOne oid user st2 = findOne oid user st)).
Proof.
  intros Hna. split_and!.
  - intros pg found. unfold findAll.
    destruct (window _ _ _) as [e|rows] eqn:Hw; [done|].
    intros [= <-]. simpl. split.
    + apply Forall_forall. intros v Hv.
      apply list_elem_of_fmap in Hv as ([oid o] & -> & Hrow).
      apply (window_subseteq _ _ _ _ Hw) in Hrow.
      apply elem_of_matching_orders in Hrow as [Ho Hvis].
      apply (visible_non_admin _ _ _ Hna) in Hvis. simpl.
      split; [done|]. by exists o.
    + rewrite matching_orders_own. f_equal.
      rewrite merge_sort_Permutation. apply length_map_to_list.
  - intros oid o Ho Hother. rewrite findOne_own.
    destruct (own_orders user st !! oid) as [o'|] eqn:Hown; [|done].
    apply own_orders_lookup in Hown as [Ho' Hvis].
    apply (visible_non_admin _ _ _ Hna) in Hvis. congruence.
  - intros oid Ho. unfold findOne. by rewrite Ho.
  - intros st2 Hprod Hown. split.
    + intros pg. unfold findAll.
      by rewrite !matching_orders_own, Hown, Hprod.
    + intros oid. by rewrite !findOne_own, Hown, Hprod.
Qed.

Lemma visibility_isolation_witness :
  let alice := mkUser (Some "alice") CUSTOMER in
  non_admin alice "alice" ∧
  findOne "order-2" alice demo_two_orders = Threw (order_not_found "order-2") ∧
  findOne "order-9" alice demo_two_orders = Threw (order_not_found "order-9").
Proof.
  intros alice.
  assert (non_admin alice "alice") as Hna by (split; [intros [=]|reflexivity]).
  split; [exact Hna|].
  destruct (visibility_isolation alice "alice" demo_two_orders Hna)
    as (_ & Hother & Hnone & _).
  split.
  - apply (Hother "order-2"
             (mkOrder "bob" PENDING 20000 2000
                [mkOrderItem "prod-P" 2 10000 20000])).
    + reflexivity.
    + intros [=].
  - apply Hnone. reflexivity.
Defined.

(** ** Status update *)

(** C9. Contract and frame of [updateStatus].  For an order that exists
    and any of the four statuses, whatever the status before,
    [updateStatus] succeeds, returns the order with the new status and
    stores it; the order keeps its buyer, total, creation time and items,
    every other order is untouched, and so are the products, the cache and
    the timers.  For an id that names no order it throws the
    [NotFoundException] of [findOne] and changes nothing. *)
Theorem updateStatus_sets_only_the_status
    (oid : string) (s : OrderStatus) (st : State) :
  (∀ o, orders st !! oid = Some o →
        ∃ v st' o',
          updateStatus oid (mkUpdateStatus s) st = (Returned v, st') ∧
          orders st' !! oid = Some o' ∧
          status o' = s ∧ v_status v = s ∧ v_id v = oid ∧
          userId o' = userId o ∧ totalFils o' = totalFils o ∧
          createdAt o' = createdAt o ∧ order_items o' = order_items o ∧
          (∀ other, other ≠ oid → orders st' !! other = orders st !! other) ∧
          products st' = products st ∧
          recentOrders st' = recentOrders st ∧
          timers st' = timers st) ∧
  (orders st !! oid = None →
   updateStatus oid (mkUpdateStatus s) st = (Threw (order_not_found oid), st)).
Proof.
  split.
  - intros o Ho. eexists _, _, (with_status s o).
    split; [by apply updateStatus_found|]. simpl.
    split; [apply lookup_insert_eq|]. split_and!; try done.
    intros other Hne. by apply lookup_insert_ne.
  - apply updateStatus_missing.
Qed.

Lemma updateStatus_sets_only_the_status_witness :
  status <$> orders (updateStatus "order-2" (mkUpdateStatus FULFILLED)
                       demo_two_orders).2 !! "order-2" = Some FULFILLED ∧
  updateStatus "order-9" (mkUpdateStatus PAID) demo_two_orders =
    (Threw (order_not_found "order-9"), demo_two_orders).
Proof.
  split; [reflexivity|].
  apply (proj2 (updateStatus_sets_only_the_status "order-9" PAID
                  demo_two_orders)).
  reflexivity.
Defined.

(** * Further properties of the services *)

(** ** When a placement succeeds *)

Lemma servable_item_check (tbl : gmap string Product) d :
  servable tbl d → item_check tbl d = None.
Proof.
  intros (p & Hp & _ & Hq & Hs). apply item_check_None. by exists p.
Qed.

Lemma servable_all_active its (tbl : gmap string Product) :
  Forall (servable tbl) its → all_active (map productId its) tbl.
Proof.
  intros Hall k Hk. apply list_elem_of_fmap in Hk as (d & -> & Hd).
  rewrite Forall_forall in Hall.
  destruct (Hall d Hd) as (p & Hp & Hact & _). by exists p.
Qed.

Lemma price_order_accepts dto (tbl : gmap string Product) :
  items dto ≠ [] →
  NoDup (map productId (items dto)) →
  Forall (servable tbl) (items dto) →
  ∃ total ois, price_order dto tbl = inr (total, ois).
Proof.
  intros Hne Hnd Hall.
  pose proof (servable_all_active _ _ Hall) as Hact.
  rewrite price_order_resolved by done.
  destruct (price_items_all_ok
              (active_rows (map productId (items dto)) tbl) (items dto) 0 [])
    as [new Hnew]; [|by eauto].
  rewrite Forall_forall in Hall |- *. intros d Hd.
  rewrite (item_check_agree _ tbl) by by apply active_rows_item.
  by apply servable_item_check, Hall.
Qed.

Lemma price_order_passes_iff dto (tbl : gmap string Product) :
  (∃ total ois, price_order dto tbl = inr (total, ois)) ↔
  items dto ≠ [] ∧
  NoDup (map productId (items dto)) ∧
  Forall (servable tbl) (items dto).
Proof.
  split.
  - intros (total & ois & Hprice).
    apply price_order_inr in Hprice as (Hne & Hnd & Hact & _ & HF).
    split_and!; try done.
    apply Forall_forall. intros d Hd.
    destruct (priced_elem _ _ _ _ HF Hd) as (p & Hp & Hq & Hs).
    assert (productId d ∈ map productId (items dto)) as Hin.
    { apply list_elem_of_fmap. by exists d. }
    destruct (Hact _ Hin) as (p' & Hp' & Hactive).
    exists p. rewrite Hp in Hp'. injection Hp' as <-. done.
  - intros (Hne & Hnd & Hall). by apply price_order_accepts.
Qed.

(** X1. What the validation of [create] lets through.  A call that is
    not answered from the cache reaches its transaction exactly when the
    item list is not empty, names pairwise distinct products, and every
    item names an active product that holds the positive quantity asked
    for.  A call that returns an order has passed these checks and drawn
    an order id that was not taken; a call that fails one of them is
    rejected by the validation, the state unchanged. *)
Theorem create_reaches_the_transaction_iff dto uid key env st :
  recent_order uid key (now_check env) (recentOrders st) = None →
  ((∃ total ois,
      create_begin dto uid key (now_check env) st = Commit total ois) ↔
   items dto ≠ [] ∧
   NoDup (map productId (items dto)) ∧
   Forall (servable (products st)) (items dto)) ∧
  (∀ r st',
     create dto uid key env st = (Returned r, st') →
     items dto ≠ [] ∧
     NoDup (map productId (items dto)) ∧
     Forall (servable (products st)) (items dto) ∧
     orders st !! db_uuid env = None) ∧
  (¬ (items dto ≠ [] ∧
      NoDup (map productId (items dto)) ∧
      Forall (servable (products st)) (items dto)) →
   ∃ e, price_order dto (products st) = inl e ∧
        create dto uid key env st = (Threw e, st)).
Proof.
  intros Hrec. split_and!.
  - rewrite <- price_order_passes_iff. unfold create_begin. rewrite Hrec.
    destruct (price_order dto (products st)) as [e|[total ois]].
    + split; [by intros (? & ? & ?)|by intros (? & ? & ?)].
    + split; intros _; by eexists _, _.
  - intros r st' Hc.
    destruct (create_fresh _ _ _ _ _ _ _ Hrec Hc)
      as (total & ois & tbl & Hprice & Hid & _).
    assert (∃ total ois, price_order dto (products st) = inr (total, ois))
      as Hpass by by eexists _, _.
    apply price_order_passes_iff in Hpass as (Hne & Hnd & Hall). done.
  - intros Hbad.
    destruct (price_order dto (products st)) as [e|[total ois]] eqn:Hprice.
    + exists e. split; [done|]. by apply create_rejects.
    + exfalso. apply Hbad. apply price_order_passes_iff. by eexists _, _.
Qed.

Lemma create_reaches_the_transaction_iff_witness :
  ∃ total ois,
    create_begin demo_order "alice" None 1000 demo_state = Commit total ois.
Proof.
  apply (proj2 (proj1 (create_reaches_the_transaction_iff demo_order "alice"
                         None (demo_env 1000 "order-1") demo_state eq_refl))).
  split_and!.
  - intros [=].
  - apply (bool_decide_unpack _). vm_compute. exact I.
  - repeat constructor.
    + exists (mkProduct "Widget" 10000 5 true).
      split_and!; [reflexivity|reflexivity|simpl; lia|simpl; lia].
    + exists (mkProduct "Gadget" 250 1 true).
      split_and!; [reflexivity|reflexivity|simpl; lia|simpl; lia].
Defined.

(** ** Placing an order and reading it back *)

Lemma view_with_products_ext (tbl tbl' : gmap string Product) oid o :
  (∀ k, summary_of k <$> tbl' !! k = summary_of k <$> tbl !! k) →
  view_with_products tbl' oid o = view_with_products tbl oid o.
Proof.
  intros Hsum. unfold view_with_products. f_equal.
  apply map_ext. intros it. by rewrite Hsum.
Qed.

(** [create] leaves titles and prices alone. *)
Lemma create_summaries dto uid key env st k :
  summary_of k <$> products (create dto uid key env st).2 !! k =
  summary_of k <$> products st !! k.
Proof.
  destruct (recent_order uid key (now_check env) (recentOrders st))
    as [oid|] eqn:Hrec.
  { by rewrite (create_replay_state _ _ _ _ _ oid). }
  destruct (create dto uid key env st) as [[r|e] st'] eqn:Hc; cycle 1.
  { by rewrite (create_threw _ _ _ _ _ _ _ Hc). }
  simpl. rewrite (create_fresh_products _ _ _ _ _ _ _ _ Hrec Hc).
  by destruct (products st !! k).
Qed.

(** The order table after a fresh success. *)
Lemma create_fresh_orders dto uid key env st r st' :
  recent_order uid key (now_check env) (recentOrders st) = None →
  create dto uid key env st = (Returned r, st') →
  ∃ o, userId o = uid ∧
       r = Some (view_with_products (products st) (db_uuid env) o) ∧
       orders st !! db_uuid env = None ∧
       orders st' = <[db_uuid env := o]> (orders st).
Proof.
  intros Hrec Hc.
  destruct (create_fresh _ _ _ _ _ _ _ Hrec Hc)
    as (total & ois & tbl & _ & Hid & _ & Hr & ->).
  eexists. split; [|split; [exact Hr|split; [done|]]]; [done|].
  by destruct (remember_tables uid key env (db_uuid env)
                 (set_products tbl
                    (set_orders
                       (<[db_uuid env :=
                            mkOrder uid PENDING total (db_now env) ois]>
                          (orders st)) st))) as [_ ->].
Qed.

(** X2. Reading back.  After a placement has created an order, [findOne]
    on the returned id answers the buyer, and an admin, with that order:
    the same id, buyer, status, total, creation time and item rows as the
    placement returned.  (What [findOne] joins to them is not compared.) *)
Theorem create_then_findOne dto uid key env st v st' user :
  recent_order uid key (now_check env) (recentOrders st) = None →
  create dto uid key env st = (Returned (Some v), st') →
  user_role user = ADMIN ∨ user_id user = Some uid →
  ∃ v', findOne (v_id v) user st' = Returned v' ∧
        order_columns v' = order_columns v.
Proof.
  intros Hrec Hc Huser.
  destruct (create_fresh_orders _ _ _ _ _ _ _ Hrec Hc)
    as (o & Huid & Hv & Hid & Hos).
  injection Hv as ->. simpl v_id. unfold findOne.
  rewrite Hos, lookup_insert_eq.
  assert (visible user o = true) as ->.
  { unfold visible. destruct (user_role user); [done|].
    destruct Huser as [Hadm|Hid']; [done|]. rewrite Hid'.
    by apply bool_decide_eq_true. }
  eexists. split; [done|].
  unfold order_columns. by rewrite !view_with_products_rows.
Qed.

Lemma create_then_findOne_witness :
  let env := demo_env 1000 "order-1" in
  let placed := create demo_order "alice" (Some "abc") env demo_state in
  ∃ v v',
    placed.1 = Returned (Some v) ∧
    findOne "order-1" (mkUser (Some "alice") CUSTOMER) placed.2 =
      Returned v' ∧
    order_columns v' =
      ("order-1", "alice", PENDING, 20250, 1000,
       [mkOrderItem "prod-P" 2 10000 20000;
        mkOrderItem "prod-Q" 1 250 250]).
Proof.
  intros env placed.
  pose (v := view_with_products demo_catalog "order-1"
               (mkOrder "alice" PENDING 20250 1000
                  [mkOrderItem "prod-P" 2 10000 20000;
                   mkOrderItem "prod-Q" 1 250 250])).
  assert (create demo_order "alice" (Some "abc") env demo_state =
          (Returned (Some v), placed.2)) as Hc by reflexivity.
  destruct (create_then_findOne demo_order "alice" (Some "abc") env
              demo_state v placed.2 (mkUser (Some "alice") CUSTOMER)
              eq_refl Hc (or_intror eq_refl)) as (v' & Hfind & Hcols).
  exists v, v'. split; [reflexivity|]. split; [exact Hfind|].
  rewrite Hcols. reflexivity.
Defined.

(** What the query methods answer depends on the rows the caller may see
    and on the titles and prices of the products. *)
Lemma query_ext user st st2 :
  own_orders user st2 = own_orders user st →
  (∀ k, summary_of k <$> products st2 !! k =
        summary_of k <$> products st !! k) →
  (∀ pg, findAll pg user st2 = findAll pg user st) ∧
  (∀ oid, findOne oid user st2 = findOne oid user st).
Proof.
  intros Hown Hsum. split.
  - intros pg. unfold findAll. rewrite !matching_orders_own, Hown.
    destruct (window _ _ _) as [e|found]; [done|].
    do 2 f_equal. apply map_ext. intros [oid o].
    by apply view_with_products_ext.
  - intros oid. rewrite !findOne_own, Hown.
    destruct (own_orders user st !! oid) as [o|]; [|done].
    f_equal. by apply view_with_products_ext.
Qed.

(** X3. A placement by one buyer changes nothing in what [findAll] and
    [findOne] answer to another buyer who is not an admin, whatever the
    outcome of the placement. *)
Theorem placement_invisible_to_other_buyers
    dto uid key env st user other :
  non_admin user other → other ≠ uid →
  (∀ pg, findAll pg user (create dto uid key env st).2 =
         findAll pg user st) ∧
  (∀ oid, findOne oid user (create dto uid key env st).2 =
          findOne oid user st).
Proof.
  intros Hna Hother. apply query_ext; [|apply create_summaries].
  destruct (recent_order uid key (now_check env) (recentOrders st))
    as [oid|] eqn:Hrec.
  { by rewrite (create_replay_state _ _ _ _ _ oid). }
  destruct (create dto uid key env st) as [[r|e] st'] eqn:Hc; cycle 1.
  { by rewrite (create_threw _ _ _ _ _ _ _ Hc). }
  destruct (create_fresh_orders _ _ _ _ _ _ _ Hrec Hc)
    as (o & Huid & _ & Hid & Hos).
  simpl. unfold own_orders. rewrite Hos.
  apply map_filter_insert_not'.
  - simpl. rewrite (visible_non_admin _ _ _ Hna). congruence.
  - intros y Hy. congruence.
Qed.

Lemma placement_invisible_to_other_buyers_witness :
  findAll (mkPagination None None) (mkUser (Some "bob") CUSTOMER)
    (create demo_order "alice" None (demo_env 1000 "order-1")
       demo_state).2 =
  findAll (mkPagination None None) (mkUser (Some "bob") CUSTOMER) demo_state.
Proof.
  apply (placement_invisible_to_other_buyers demo_order "alice" None
           (demo_env 1000 "order-1") demo_state
           (mkUser (Some "bob") CUSTOMER) "bob").
  - split; [intros [=]|reflexivity].
  - intros [=].
Defined.

(** ** Placements in turn against a limited stock *)

Lemma serve_single_unit_in_stock k p uid env st :
  products st !! k = Some p → isActive p = true → 1 ≤ stock p →
  orders st !! db_uuid env = None →
  ∃ v st',
    serve (mkRequest (mkCreateOrderDto [mkItemDto k 1]) uid None env) st =
      (Returned (Some v), st') ∧
    products st' !! k = Some (decrement 1 p) ∧
    orders st' = <[db_uuid env :=
                     mkOrder uid PENDING (priceFils p * 1) (db_now env)
                       [line_of p (mkItemDto k 1)]]> (orders st).
Proof.
  intros Hp Hact Hs Hid. unfold serve, create. cbn [req_dto req_user req_key req_env].
  rewrite (create_begin_single_unit uid _ (fire_timers (now_check env) st) k p)
    by done.
  cbn [create_end]. unfold transaction.
  cbn [orders fire_timers products items decrement_stock productId qty].
  rewrite Hid, Hp. cbn [remember v_id].
  eexists _, _. split; [done|]. split; [apply lookup_insert_eq|done].
Qed.

Lemma serve_single_unit_sold_out k p uid env st :
  products st !! k = Some p → isActive p = true → stock p < 1 →
  serve (mkRequest (mkCreateOrderDto [mkItemDto k 1]) uid None env) st =
  (Threw (insufficient_stock_error p 1), fire_timers (now_check env) st).
Proof.
  intros Hp Hact Hs. unfold serve. cbn [req_dto req_user req_key req_env].
  apply create_rejects; [done|].
  apply (price_order_first_error _ _ [] (mkItemDto k 1) []).
  - done.
  - apply NoDup_singleton.
  - intros k' Hk'. simpl in Hk'. apply list_elem_of_singleton in Hk'.
    subst k'. by exists p.
  - constructor.
  - unfold item_check. cbn [productId qty products fire_timers].
    rewrite Hp. change (1 <=? 0) with false. cbv iota.
    by destruct (Z.ltb_spec (stock p) 1); [|lia].
Qed.

(** X4. One unit each, in turn.  When callers place single-unit orders of
    an active product one after the other, without tokens and under ids
    the database has not used, the number of successes is the smaller of
    the number of callers and the stock; every other call is rejected for
    insufficient stock, and the stock falls by the number of successes. *)
Theorem placements_in_turn_succeed_min k callers :
  NoDup (map (fun c : string * Env => db_uuid c.2) callers) →
  ∀ st p,
    products st !! k = Some p → isActive p = true → 0 ≤ stock p →
    Forall (fun c : string * Env => orders st !! db_uuid c.2 = None) callers →
    let outs := (run (single_unit_requests k callers) st).1 in
    let st' := (run (single_unit_requests k callers) st).2 in
    length outs = length callers ∧
    Z.of_nat (length (filter (fun out => succeeded out = true) outs)) =
      Z.min (Z.of_nat (length callers)) (stock p) ∧
    Forall (fun out => succeeded out = true ∨
                       ∃ q, out = Threw (insufficient_stock_error q 1)) outs ∧
    stock_of k st' = stock p - Z.min (Z.of_nat (length callers)) (stock p).
Proof.
  induction callers as [|[uid env] rest IH];
    intros Hnd st p Hp Hact Hs Hfresh.
  - cbn. unfold stock_of. rewrite Hp. cbn.
    split_and!; [done|lia|constructor|lia].
  - apply NoDup_cons in Hnd as [Hnin Hnd].
    apply Forall_cons in Hfresh as [Hid Hfresh]. cbn in Hid.
    cbn [single_unit_requests map run]. cbn [fst snd].
    destruct (decide (1 ≤ stock p)) as [Hin|Hout].
    + destruct (serve_single_unit_in_stock k p uid env st Hp Hact Hin Hid)
        as (v & st1 & -> & Hp1 & Hos).
      specialize (IH Hnd st1 (decrement 1 p) Hp1 Hact).
      change (stock (decrement 1 p)) with (stock p - 1) in IH.
      destruct IH as (Hlen & Hcount & Hall & Hstock).
      { lia. }
      { apply Forall_forall. intros c Hc. rewrite Hos.
        rewrite lookup_insert_ne.
        - rewrite Forall_forall in Hfresh. by apply Hfresh.
        - intros Heq. apply Hnin. cbn. rewrite Heq.
          apply list_elem_of_fmap. by exists c. }
      fold (single_unit_requests k rest).
      destruct (run (single_unit_requests k rest) st1) as [outs st2].
      cbn [fst snd length] in *. split_and!.
      * by rewrite Hlen.
      * rewrite filter_cons_True by done. cbn [length]. lia.
      * constructor; [by left|done].
      * lia.
    + rewrite (serve_single_unit_sold_out k p uid env st Hp Hact)
        by lia.
      specialize (IH Hnd (fire_timers (now_check env) st) p Hp Hact Hs).
      destruct IH as (Hlen & Hcount & Hall & Hstock); [exact Hfresh|].
      fold (single_unit_requests k rest).
      destruct (run (single_unit_requests k rest)
                  (fire_timers (now_check env) st)) as [outs st2].
      cbn [fst snd length] in *. split_and!.
      * by rewrite Hlen.
      * rewrite filter_cons_False by done. lia.
      * constructor; [right; by eexists|done].
      * lia.
Qed.

Lemma placements_in_turn_succeed_min_witness :
  let callers := [("alice", demo_env 1000 "order-1");
                  ("bob", demo_env 1001 "order-2");
                  ("carol", demo_env 1002 "order-3")] in
  map succeeded (run (single_unit_requests "prod-Q" callers) demo_state).1
    = [true; false; false] ∧
  stock_of "prod-Q" (run (single_unit_requests "prod-Q" callers) demo_state).2
    = 1 - Z.min (Z.of_nat (length callers)) 1.
Proof.
  intros callers. split; [reflexivity|].
  refine (proj2 (proj2 (proj2
            (placements_in_turn_succeed_min "prod-Q" callers _ demo_state
               (mkProduct "Gadget" 250 1 true) _ _ _ _)))).
  - apply (bool_decide_unpack _). vm_compute. exact I.
  - reflexivity.
  - reflexivity.
  - simpl. lia.
  - repeat constructor.
Defined.

(** ** Paging through orders *)

Lemma window_in_range {A : Type} (skip take : Z) (l : list A) :
  0 ≤ skip → 0 ≤ take →
  window skip take l = inr (firstn (Z.to_nat take) (skipn (Z.to_nat skip) l)).
Proof.
  intros Hs Ht. unfold window.
  destruct (Z.ltb_spec skip 0); [lia|].
  by destruct (Z.leb_spec 0 take); [|lia].
Qed.

Lemma findAll_in_range pg user st :
  1 ≤ default 1 (page pg) → 0 ≤ default 20 (limit pg) →
  findAll pg user st =
  Returned
    (mkPage
       (take (Z.to_nat (default 20 (limit pg)))
          (drop (Z.to_nat ((default 1 (page pg) - 1) * default 20 (limit pg)))
             (all_rows user st)))
       (default 1 (page pg)) (default 20 (limit pg))
       (Z.of_nat (size (own_orders user st)))).
Proof.
  intros Hp Hl. unfold findAll. rewrite window_in_range by nia.
  f_equal. unfold all_rows. f_equal.
  - by rewrite List.skipn_map, List.firstn_map.
  - rewrite matching_orders_own, merge_sort_Permutation.
    by rewrite length_map_to_list.
Qed.

Lemma length_all_rows user st :
  length (all_rows user st) = size (own_orders user st).
Proof.
  unfold all_rows. rewrite length_map, matching_orders_own.
  rewrite merge_sort_Permutation. apply length_map_to_list.
Qed.

(** X5. Page size.  With a page number of at least 1 and a limit that is
    not negative (the defaults are page 1 and limit 20), [findAll]
    returns; the page holds the orders that are left after the pages
    before it, up to the limit, and [total] counts every order the caller
    may see. *)
Theorem findAll_page_size pg user st :
  1 ≤ default 1 (page pg) → 0 ≤ default 20 (limit pg) →
  ∃ found,
    findAll pg user st = Returned found ∧
    meta_page found = default 1 (page pg) ∧
    meta_limit found = default 20 (limit pg) ∧
    meta_total found = Z.of_nat (size (own_orders user st)) ∧
    Z.of_nat (length (data found)) =
      Z.max 0 (Z.min (meta_limit found)
                 (meta_total found - (meta_page found - 1) * meta_limit found)).
Proof.
  intros Hp Hl. eexists. split; [by apply findAll_in_range|].
  cbn [meta_page meta_limit meta_total data]. split_and!; try done.
  rewrite length_take, length_drop, length_all_rows. nia.
Qed.

Lemma findAll_page_size_witness :
  ∃ found,
    findAll (mkPagination (Some 2) (Some 1)) (mkUser None ADMIN)
      demo_two_orders = Returned found ∧
    Z.of_nat (length (data found)) =
      Z.max 0 (Z.min (meta_limit found)
                 (meta_total found - (meta_page found - 1) * meta_limit found)).
Proof.
  destruct (findAll_page_size (mkPagination (Some 2) (Some 1))
              (mkUser None ADMIN) demo_two_orders)
    as (found & Hf & _ & _ & _ & Hlen); [simpl; lia..|].
  exists found. exact (conj Hf Hlen).
Defined.

#[local] Instance newer_first_total : Total newer_first.
Proof. intros a b. unfold newer_first. lia. Qed.

#[local] Instance newer_first_trans : Transitive newer_first.
Proof. intros a b c. unfold newer_first. lia. Qed.

Lemma StronglySorted_sublist {A : Type} (R : relation A) (l1 l2 : list A) :
  l1 `sublist_of` l2 → StronglySorted R l2 → StronglySorted R l1.
Proof.
  induction 1 as [|x l1 l2 Hsub IH|x l1 l2 Hsub IH]; intros Hs.
  - constructor.
  - apply StronglySorted_cons in Hs as [Hall Hs].
    apply StronglySorted_cons. split; [|by apply IH].
    rewrite Forall_forall in Hall |- *. intros y Hy.
    apply Hall. by eapply elem_of_sublist.
  - apply StronglySorted_cons in Hs as [_ Hs]. by apply IH.
Qed.

Lemma sublist_reverse_2 {A : Type} (l1 l2 : list A) :
  l1 `sublist_of` l2 → reverse l1 `sublist_of` reverse l2.
Proof.
  induction 1 as [|x l1 l2 Hsub IH|x l1 l2 Hsub IH];
    rewrite ?reverse_cons.
  - done.
  - by apply sublist_app.
  - by apply sublist_inserts_r.
Qed.

Lemma window_sublist {A : Type} (skip take : Z) (l found : list A) :
  window skip take l = inr found → found `sublist_of` l.
Proof.
  unfold window. destruct (skip <? 0); [done|].
  destruct (0 <=? take); intros [= <-].
  - etrans; [apply sublist_take|apply sublist_drop].
  - rewrite <- (reverse_involutive l) at 2. apply sublist_reverse_2.
    etrans; [apply sublist_take|apply sublist_drop].
Qed.

Lemma matching_orders_sorted user st :
  StronglySorted newer_first (matching_orders user st).
Proof.
  apply Sorted_StronglySorted; [apply _|]. apply Sorted_merge_sort. apply _.
Qed.

(** X6. Newest first.  Whatever the page and the limit, the orders of a
    page [findAll] returns are in the order of their creation times, the
    newest first. *)
Theorem findAll_newest_first pg user st found :
  findAll pg user st = Returned found →
  StronglySorted view_newer_first (data found).
Proof.
  unfold findAll. destruct (window _ _ _) as [e|rows] eqn:Hw; [done|].
  intros [= <-]. cbn [data].
  apply (StronglySorted_fmap _ newer_first); [by intros [??] [??]|].
  eapply StronglySorted_sublist; [by eapply window_sublist|].
  apply matching_orders_sorted.
Qed.

Lemma findAll_newest_first_witness :
  map v_id
    (page_rows (findAll (mkPagination None None) (mkUser None ADMIN)
                  demo_two_orders)) = ["order-2"; "order-1"] ∧
  StronglySorted view_newer_first
    (page_rows (findAll (mkPagination None None) (mkUser None ADMIN)
                  demo_two_orders)).
Proof.
  split; [reflexivity|].
  destruct (findAll (mkPagination None None) (mkUser None ADMIN)
              demo_two_orders) as [found|e] eqn:Hf; [|constructor].
  exact (findAll_newest_first _ _ _ _ Hf).
Defined.

Lemma all_rows_ids user st :
  map v_id (all_rows user st) = (matching_orders user st).*1.
Proof.
  unfold all_rows. rewrite map_map. apply map_ext. by intros [oid o].
Qed.

Lemma pages_upto_take user st lim n :
  1 ≤ lim →
  pages_upto n lim user st = take (n * Z.to_nat lim) (all_rows user st).
Proof.
  intros Hlim. unfold pages_upto. induction n as [|n IH]; [done|].
  rewrite seq_S, map_app, concat_app, IH. cbn [map concat Nat.add].
  rewrite app_nil_r.
  rewrite findAll_in_range by (cbn; lia).
  cbn [page_rows data page limit from_option id].
  replace (Z.to_nat ((Z.of_nat n + 1 - 1) * lim)) with (n * Z.to_nat lim)%nat
    by nia.
  rewrite take_take_drop. f_equal. lia.
Qed.

(** Where creation times are pairwise distinct there is one way to list
    rows newest first. *)
Lemma newest_first_unique (l1 l2 : list (string * Order)) :
  NoDup ((fun ko : string * Order => createdAt ko.2) <$> l1) →
  l1 ≡ₚ l2 →
  StronglySorted newer_first l1 → StronglySorted newer_first l2 →
  l1 = l2.
Proof.
  revert l2. induction l1 as [|x l1 IH]; intros l2 Hnd Hperm Hs1 Hs2.
  { by apply Permutation_nil_l in Hperm. }
  destruct l2 as [|y l2].
  { by apply Permutation_nil_r in Hperm. }
  apply NoDup_cons in Hnd as [Hx Hnd].
  apply StronglySorted_inv in Hs1 as [Hs1 Hx1].
  apply StronglySorted_inv in Hs2 as [Hs2 Hy2].
  assert (x = y) as <-.
  { assert (y ∈ x :: l1) as Hy by (rewrite Hperm; apply list_elem_of_here).
    assert (x ∈ y :: l2) as Hx' by (rewrite <- Hperm; apply list_elem_of_here).
    apply elem_of_cons in Hy as [->|Hy]; [done|].
    apply elem_of_cons in Hx' as [->|Hx']; [done|].
    rewrite Forall_forall in Hx1, Hy2.
    pose proof (Hx1 y Hy) as Hxy. pose proof (Hy2 x Hx') as Hyx.
    unfold newer_first in Hxy, Hyx.
    exfalso. apply Hx. apply list_elem_of_fmap. exists y. split; [lia|done]. }
  f_equal. apply IH; try done. by apply Permutation_cons_inv in Hperm.
Qed.

(** X7. Pages cover the orders.  Let no two orders the caller may see
    have the same creation time, so that newest first is one order of
    them, whichever query computes it.  Then under a limit of at least 1,
    pages 1 to n of [findAll], read one after the other from one state,
    are the first n times limit of those orders; the orders all have
    distinct ids and are exactly the stored orders visible to the caller;
    so as soon as n times limit reaches the count, the pages hold every
    visible order once and none twice. *)
Theorem findAll_pages_cover user st lim n :
  distinct_times user st →
  1 ≤ lim →
  (∀ rows, rows ≡ₚ map_to_list (own_orders user st) →
           StronglySorted newer_first rows →
           rows = matching_orders user st) ∧
  pages_upto n lim user st =
    take (n * Z.to_nat lim) (all_rows user st) ∧
  NoDup (map v_id (all_rows user st)) ∧
  (∀ oid, oid ∈ map v_id (all_rows user st) ↔
          is_Some (own_orders user st !! oid)) ∧
  (Z.of_nat (size (own_orders user st)) ≤ Z.of_nat n * lim →
   pages_upto n lim user st = all_rows user st).
Proof.
  intros Htimes Hlim. split_and!.
  - intros rows Hperm Hsorted.
    apply newest_first_unique; try done.
    + by rewrite Hperm.
    + by rewrite Hperm, matching_orders_own, merge_sort_Permutation.
    + apply matching_orders_sorted.
  - by apply pages_upto_take.
  - rewrite all_rows_ids, matching_orders_own, merge_sort_Permutation.
    apply NoDup_fst_map_to_list.
  - intros oid.
    rewrite all_rows_ids, matching_orders_own, merge_sort_Permutation.
    rewrite list_elem_of_fmap. split.
    + intros ([oid' o] & -> & Hin). apply elem_of_map_to_list in Hin.
      by exists o.
    + intros [o Ho]. exists (oid, o). split; [done|].
      by apply elem_of_map_to_list.
  - intros Hn. rewrite pages_upto_take by done. apply take_ge.
    rewrite length_all_rows. nia.
Qed.

Lemma findAll_pages_cover_witness :
  map v_id (pages_upto 2 1 (mkUser None ADMIN) demo_two_orders)
    = ["order-2"; "order-1"] ∧
  pages_upto 2 1 (mkUser None ADMIN) demo_two_orders =
    all_rows (mkUser None ADMIN) demo_two_orders.
Proof.
  split; [reflexivity|].
  assert (distinct_times (mkUser None ADMIN) demo_two_orders) as Htimes.
  { apply (bool_decide_unpack _). vm_compute. exact I. }
  refine (proj2 (proj2 (proj2 (proj2
            (findAll_pages_cover (mkUser None ADMIN) demo_two_orders 1 2
               Htimes _)))) _).
  - lia.
  - vm_compute. intros [=].
Defined.

Lemma ceil_div_bounds total lim :
  1 ≤ lim →
  ∃ n, ceil_div total lim = Finite n ∧ (n - 1) * lim < total ∧ total ≤ n * lim.
Proof.
  intros Hlim. unfold ceil_div.
  destruct (Z.eqb_spec lim 0); [lia|].
  exists (- (- total / lim)). split; [done|].
  pose proof (Z.div_mod (- total) lim) as Hdm.
  pose proof (Z.mod_pos_bound (- total) lim) as Hb. nia.
Qed.

Lemma page_at_nonempty q lim user st :
  1 ≤ q → 1 ≤ lim →
  page_at q lim user st ≠ [] ↔
  (q - 1) * lim < Z.of_nat (size (own_orders user st)).
Proof.
  intros Hq Hlim. unfold page_at.
  rewrite findAll_in_range by (cbn; lia).
  cbn [page_rows data page limit from_option id].
  rewrite <- length_zero_iff_nil, length_take, length_drop, length_all_rows.
  nia.
Qed.

(** X8. The page counters.  With a page number and a limit of at least 1,
    [totalPages] is the number of pages that hold an order: page q holds
    one exactly when q is at most [totalPages]; [hasNext] is true exactly
    when the next page holds an order, and [hasPrev] exactly when the page
    is not the first. *)
Theorem page_meta_matches_pages pg user st found :
  1 ≤ default 1 (page pg) → 1 ≤ default 20 (limit pg) →
  findAll pg user st = Returned found →
  ∃ n, totalPages (page_meta found) = Finite n ∧ 0 ≤ n ∧
       (∀ q, 1 ≤ q →
             page_at q (default 20 (limit pg)) user st ≠ [] ↔ q ≤ n) ∧
       (hasNext (page_meta found) = true ↔
        page_at (default 1 (page pg) + 1) (default 20 (limit pg)) user st
          ≠ []) ∧
       (hasPrev (page_meta found) = true ↔ 1 < default 1 (page pg)).
Proof.
  intros Hp Hl Hf. rewrite findAll_in_range in Hf by lia.
  injection Hf as <-. unfold page_meta.
  cbn [meta_total meta_limit meta_page totalPages hasNext hasPrev].
  destruct (ceil_div_bounds (Z.of_nat (size (own_orders user st)))
              (default 20 (limit pg)) Hl) as (n & -> & Hlo & Hhi).
  exists n. split; [done|]. split; [nia|]. split_and!.
  - intros q Hq. rewrite page_at_nonempty by done. nia.
  - rewrite page_at_nonempty by lia. cbn [js_lt].
    rewrite Z.ltb_lt. nia.
  - apply Z.ltb_lt.
Qed.

Lemma page_meta_matches_pages_witness :
  ∃ found n,
    findAll (mkPagination (Some 1) (Some 1)) (mkUser None ADMIN)
      demo_two_orders = Returned found ∧
    totalPages (page_meta found) = Finite n ∧
    (hasNext (page_meta found) = true ↔
     page_at 2 1 (mkUser None ADMIN) demo_two_orders ≠ []).
Proof.
  assert (findAll (mkPagination (Some 1) (Some 1)) (mkUser None ADMIN)
            demo_two_orders =
          Returned (mkPage (take 1 (all_rows (mkUser None ADMIN)
                                      demo_two_orders)) 1 1 2)) as Hf
    by reflexivity.
  destruct (page_meta_matches_pages (mkPagination (Some 1) (Some 1))
              (mkUser None ADMIN) demo_two_orders _ ltac:(simpl; lia)
              ltac:(simpl; lia) Hf)
    as (n & Hn & _ & _ & Hnext & _).
  eexists _, n. split; [exact Hf|]. split; [exact Hn|exact Hnext].
Defined.

(** ** The idempotency cache: keys *)

Lemma cache_key_shift (uid x k : string) :
  cache_key (uid +:+ "-" +:+ x) k = cache_key uid (x +:+ "-" +:+ k).
Proof. unfold cache_key. by rewrite !string_app_assoc. Qed.

(** X9. The replay does not look at the buyer.  The cache key is the text
    [userId-token]; when another buyer's id and token spell the same key,
    a submission of that buyer checked within 5000 ms of the first
    buyer's entry is answered with the first buyer's order, and nothing
    is written. *)
Theorem replay_ignores_the_buyer
    dto uid k env st v st1 dto2 uid2 k2 env2 :
  k ≠ "" → k2 ≠ "" →
  recent_order uid (Some k) (now_check env) (recentOrders st) = None →
  create dto uid (Some k) env st = (Returned (Some v), st1) →
  cache_key uid2 k2 = cache_key uid k →
  now_check env2 - now_record env < 5000 →
  ∃ o, orders st1 !! v_id v = Some o ∧ userId o = uid ∧
       create dto2 uid2 (Some k2) env2 st1 =
       (Returned (Some (view_items_only (v_id v) o)), st1).
Proof.
  intros Hk Hk2 Hrec Hc Hkey Hwin.
  destruct (create_fresh_cache _ _ _ _ _ _ _ Hk Hrec Hc)
    as (o & Hv & Hid & Hos & Hcache & _).
  destruct (create_fresh_orders _ _ _ _ _ _ _ Hrec Hc)
    as (o' & Huid & Hv' & _ & Hos').
  assert (o' = o) as ->.
  { rewrite Hos in Hos'.
    apply (f_equal (fun m => m !! db_uuid env)) in Hos'.
    rewrite !lookup_insert_eq in Hos'. congruence. }
  injection Hv as ->. cbn [v_id view_with_products].
  assert (orders st1 !! db_uuid env = Some o) as Ho.
  { rewrite Hos. apply lookup_insert_eq. }
  exists o. split; [done|]. split; [done|].
  rewrite (create_replay _ _ _ _ _ (db_uuid env)).
  - by rewrite Ho.
  - unfold recent_order. rewrite truthy_nonempty by done.
    rewrite Hkey, Hcache, lookup_insert_eq. cbn [timestamp orderId].
    by destruct (Z.ltb_spec (now_check env2 - now_record env) 5000); [|lia].
Qed.

Lemma replay_ignores_the_buyer_witness :
  let dto := mkCreateOrderDto [mkItemDto "prod-P" 1] in
  let st1 := (create dto "ann" (Some "bo-key") (demo_env 1000 "order-1")
                demo_state).2 in
  ∃ o, userId o = "ann" ∧
       create demo_order "ann-bo" (Some "key") (demo_env 2000 "order-2") st1 =
       (Returned (Some (view_items_only "order-1" o)), st1).
Proof.
  intros dto st1.
  pose (v := view_with_products demo_catalog "order-1"
               (mkOrder "ann" PENDING 10000 1000
                  [mkOrderItem "prod-P" 1 10000 10000])).
  assert (create dto "ann" (Some "bo-key") (demo_env 1000 "order-1")
            demo_state = (Returned (Some v), st1)) as Hc by reflexivity.
  destruct (replay_ignores_the_buyer dto "ann" "bo-key"
              (demo_env 1000 "order-1") demo_state v st1 demo_order
              "ann-bo" "key" (demo_env 2000 "order-2"))
    as (o & _ & Huid & Hreplay).
  - intros [=].
  - intros [=].
  - reflexivity.
  - exact Hc.
  - reflexivity.
  - simpl. lia.
  - exists o. exact (conj Huid Hreplay).
Defined.

Lemma string_app_inj_same_length (a b x y : string) :
  String.length a = String.length b → a +:+ x = b +:+ y → a = b ∧ x = y.
Proof.
  revert b. induction a as [|c a IH]; intros [|d b] Hlen Heq;
    try discriminate Hlen.
  - done.
  - change (String c (a +:+ x) = String d (b +:+ y)) in Heq.
    injection Heq as -> Heq. injection Hlen as Hlen.
    destruct (IH b Hlen Heq) as [-> ->]. done.
Qed.

(** X10. For buyer ids of one length, as UUIDs are, the cache key tells
    buyer and token apart: two keys are equal only for the same buyer and
    the same token. *)
Theorem cache_key_inj_same_length (uid1 uid2 k1 k2 : string) :
  String.length uid1 = String.length uid2 →
  cache_key uid1 k1 = cache_key uid2 k2 →
  uid1 = uid2 ∧ k1 = k2.
Proof.
  intros Hlen Heq. unfold cache_key in Heq.
  destruct (string_app_inj_same_length _ _ _ _ Hlen Heq) as [-> Hk].
  split; [done|].
  by apply (string_app_inj_same_length "-" "-") in Hk as [_ Hk].
Qed.

Lemma cache_key_inj_same_length_witness :
  "u-1" = "u-1" ∧ "k-a" = "k-a".
Proof.
  apply (cache_key_inj_same_length "u-1" "u-1" "k-a" "k-a"); reflexivity.
Defined.

(** ** The idempotency cache: expiry *)

Lemma foldl_delete_fired (l : list (Z * string))
    (m : gmap string CacheEntry) (t : Z * string) :
  t ∈ l → foldl (fun m t => delete t.2 m) m l !! t.2 = None.
Proof.
  revert m. induction l as [|t' l IH]; intros m Ht.
  - by apply elem_of_nil in Ht.
  - cbn [foldl]. apply elem_of_cons in Ht as [->|Ht]; [|by apply IH].
    destruct (foldl (fun m t => delete t.2 m) (delete t'.2 m) l !! t'.2)
      as [e|] eqn:He; [|done].
    apply foldl_delete_lookup_Some in He. by rewrite lookup_delete_eq in He.
Qed.

(** An entry that is still cached after the timers ran is younger than
    ten seconds. *)
Lemma fire_timers_young now st ck e :
  cache_timed st →
  recentOrders (fire_timers now st) !! ck = Some e →
  now < timestamp e + 10000.
Proof.
  intros Hinv He.
  pose proof (fire_timers_only_deletes _ _ _ _ He) as Hold.
  apply Hinv in Hold.
  destruct (decide (timestamp e + 10000 ≤ now)) as [Hdue|]; [|lia].
  unfold fire_timers in He. cbn [recentOrders] in He.
  rewrite (foldl_delete_fired _ _ (timestamp e + 10000, ck)) in He; [done|].
  apply list_elem_of_filter. done.
Qed.

Lemma fire_timers_cache_timed now st :
  cache_timed st → cache_timed (fire_timers now st).
Proof.
  intros Hinv ck e He.
  pose proof (fire_timers_young _ _ _ _ Hinv He) as Hyoung.
  apply fire_timers_only_deletes in He. apply Hinv in He.
  unfold fire_timers. cbn [timers]. apply list_elem_of_filter.
  split; [cbn; lia|done].
Qed.

Lemma remember_cache_timed uid key env oid st :
  cache_timed st → cache_timed (remember uid key env oid st).
Proof.
  intros Hinv. unfold remember. destruct key as [k|]; [|done].
  destruct (truthy (Some k)); [|done].
  intros ck e. cbn [recentOrders timers]. intros He.
  apply elem_of_app.
  destruct (decide (cache_key uid k = ck)) as [<-|Hne].
  - rewrite lookup_insert_eq in He. injection He as <-. right.
    apply list_elem_of_here.
  - rewrite lookup_insert_ne in He by done. left. by apply Hinv.
Qed.

Lemma create_cache_timed dto uid key env st :
  cache_timed st → cache_timed (create dto uid key env st).2.
Proof.
  intros Hinv.
  destruct (recent_order uid key (now_check env) (recentOrders st))
    as [oid|] eqn:Hrec.
  { by rewrite (create_replay_state _ _ _ _ _ oid). }
  destruct (create dto uid key env st) as [[r|e] st'] eqn:Hc; cycle 1.
  { by rewrite (create_threw _ _ _ _ _ _ _ Hc). }
  destruct (create_fresh _ _ _ _ _ _ _ Hrec Hc)
    as (total & ois & tbl & _ & _ & _ & _ & ->).
  cbn [snd]. by apply remember_cache_timed.
Qed.

Lemma run_cache_timed rs st :
  cache_timed st → cache_timed (run rs st).2.
Proof.
  revert st. induction rs as [|r rest IH]; intros st Hinv; [done|].
  cbn [run]. destruct (serve r st) as [out st1] eqn:Hs.
  specialize (IH st1). destruct (run rest st1) as [outs st2]. cbn [snd] in *.
  apply IH. replace st1 with (serve r st).2 by by rewrite Hs.
  unfold serve. by apply create_cache_timed, fire_timers_cache_timed.
Qed.

(** X11. Cache entries expire.  In every state a run of placements
    reaches from a state whose cache entries all have their timer
    pending (an empty cache, for one), each entry still has its timer
    pending; so once the event loop has run the timers that are due, no
    entry written 10000 ms ago or earlier is left, and when every timer
    is due the cache is empty. *)
Theorem cache_entries_expire rs st :
  cache_timed st →
  cache_timed (run rs st).2 ∧
  (∀ now ck e,
     recentOrders (fire_timers now (run rs st).2) !! ck = Some e →
     now < timestamp e + 10000) ∧
  (∀ now,
     Forall (fun t : Z * string => t.1 ≤ now) (timers (run rs st).2) →
     recentOrders (fire_timers now (run rs st).2) = ∅).
Proof.
  intros Hinv. pose proof (run_cache_timed rs st Hinv) as Hrun.
  split_and!; [done| |].
  - intros now ck e. by apply fire_timers_young.
  - intros now Hdue. apply map_empty. intros ck.
    destruct (recentOrders (fire_timers now (run rs st).2) !! ck)
      as [e|] eqn:He; [|done].
    pose proof (fire_timers_young _ _ _ _ Hrun He) as Hyoung.
    apply fire_timers_only_deletes in He. apply Hrun in He.
    rewrite Forall_forall in Hdue. specialize (Hdue _ He). cbn in Hdue. lia.
Qed.

Lemma cache_entries_expire_witness :
  cache_timed demo_state ∧
  recentOrders (fire_timers 11000 (run demo_requests demo_state).2) = ∅.
Proof.
  assert (cache_timed demo_state) as Hinv.
  { intros ck e He. exfalso. revert He.
    change ((∅ : gmap string CacheEntry) !! ck ≠ Some e).
    by rewrite lookup_empty. }
  split; [exact Hinv|].
  apply (proj2 (proj2 (cache_entries_expire demo_requests demo_state Hinv))).
  apply (bool_decide_unpack _). vm_compute. exact I.
Defined.

(** ** Status updates, one after another *)

(** X12. Status updates compose.  A second [updateStatus] on an order
    overrides the first: the outcome and the state are those of the
    second update alone.  What an admin reads back with [findOne] after
    an update is the order the update answered with (the same id, buyer,
    status, total, creation time and item rows), or the exception it
    threw. *)
Theorem updateStatus_last_write_wins oid dto1 dto2 st :
  updateStatus oid dto2 (updateStatus oid dto1 st).2 =
    updateStatus oid dto2 st ∧
  match (updateStatus oid dto1 st).1,
        findOne oid (mkUser None ADMIN) (updateStatus oid dto1 st).2 with
  | Returned v, Returned v' => order_columns v' = order_columns v
  | Threw e, Threw e' => e' = e
  | _, _ => False
  end.
Proof.
  destruct (orders st !! oid) as [o|] eqn:Ho.
  - rewrite (updateStatus_found oid dto1 st o Ho). cbn [fst snd]. split.
    + rewrite (updateStatus_found oid dto2 st o Ho).
      rewrite (updateStatus_found oid dto2 _ (with_status (new_status dto1) o))
        by apply lookup_insert_eq.
      unfold set_orders. cbn [products orders recentOrders timers].
      by rewrite insert_insert_eq.
    + unfold findOne. cbn [orders set_orders products].
      by rewrite lookup_insert_eq.
  - rewrite (updateStatus_missing oid dto1 st Ho). cbn [fst snd]. split.
    + done.
    + unfold findOne. by rewrite Ho.
Qed.

(** ** Behind the validation pipe *)

Lemma valid_CreateOrderDto_items isUUID dto :
  valid_CreateOrderDto isUUID dto = true →
  items dto ≠ [] ∧ Forall (fun d => 1 ≤ qty d) (items dto).
Proof.
  unfold valid_CreateOrderDto. intros [Hlen Hall]%andb_true_iff. split.
  - intros He. rewrite He in Hlen. done.
  - apply Forall_forall. intros d Hd.
    rewrite forallb_forall in Hall.
    specialize (Hall d (proj1 (list_elem_of_In _ _) Hd)).
    unfold valid_OrderItemDto in Hall.
    apply andb_true_iff in Hall as [_ Hq]. by apply Z.leb_le.
Qed.

(** X13. Behind the pipe.  For a request body that passes the decorators
    of [CreateOrderDto] (at least one item, every quantity at least 1),
    the checks of [create] for an empty list, for a quantity that is not
    positive and for an item whose product is not in the map never fire:
    a placement that throws was rejected with "One or more products not
    found" or for the insufficient stock of an item it names, or it
    passed the validation and the database refused the transaction. *)
Theorem create_behind_the_pipe isUUID dto uid key env st e st' :
  valid_CreateOrderDto isUUID dto = true →
  create dto uid key env st = (Threw e, st') →
  (e ≠ empty_order_error ∧ e ≠ quantity_error ∧
   ∀ k, e ≠ BadRequestException ("Product " +:+ k +:+ " not found")) ∧
  (e = products_not_found_error ∨
   (∃ d p rest,
      d ∈ items dto ∧ products st !! productId d = Some p ∧
      stock p < qty d ∧
      e = BadRequestException
            ("Insufficient stock for " +:+ title p +:+ ". Available: "
               +:+ rest)) ∨
   ((∃ total ois, price_order dto (products st) = inr (total, ois)) ∧
    ∃ code, e = PrismaError code)).
Proof.
  intros Hvalid Hc.
  destruct (valid_CreateOrderDto_items _ _ Hvalid) as [Hne Hqty].
  assert (e = products_not_found_error ∨
          (∃ d p, d ∈ items dto ∧ products st !! productId d = Some p ∧
                  stock p < qty d ∧ e = insufficient_stock_error p (qty d)) ∨
          ((∃ total ois, price_order dto (products st) = inr (total, ois)) ∧
           ∃ code, e = PrismaError code)) as Hcases.
  { destruct (price_order dto (products st)) as [e'|[total ois]] eqn:Hprice.
    - assert (e = e') as <-.
      { destruct (create_threw_cases _ _ _ _ _ _ _ Hc) as [Hp|[->| ->]].
        + congruence.
        + revert Hc. unfold create, create_begin, create_end.
          destruct (recent_order _ _ _ _); [done|]. rewrite Hprice.
          by intros [= <- _].
        + revert Hc. unfold create, create_begin, create_end.
          destruct (recent_order _ _ _ _); [done|]. rewrite Hprice.
          by intros [= <- _]. }
      apply price_order_inl in Hprice
        as [[He _]|[(_ & _ & ->)|(_ & _ & d & p & Hd & Hp & Hcase)]].
      + done.
      + by left.
      + rewrite Forall_forall in Hqty. specialize (Hqty d Hd).
        destruct Hcase as [[Hq _]|(_ & Hs & ->)]; [lia|].
        right. left. by exists d, p.
    - right. right. split; [by eexists _, _|].
      destruct (create_threw_cases _ _ _ _ _ _ _ Hc) as [Hp|[->| ->]];
        [congruence|by eexists..]. }
  split; [|].
  - destruct Hcases as [->|[(d & p & _ & _ & _ & ->)|(_ & code & ->)]];
      (split_and!; [intros [= H]|intros [= H]|intros k [= H]]).
  - destruct Hcases as [->|[(d & p & Hd & Hp & Hs & ->)|Hdb]];
      [by left| |by right; right].
    right. left. exists d, p. eexists. split_and!; try done.
Qed.

Lemma create_behind_the_pipe_witness :
  let dto := mkCreateOrderDto [mkItemDto "prod-P" 10] in
  let e := BadRequestException
             "Insufficient stock for Widget. Available: 5, Requested: 10" in
  create dto "bob" None (demo_env 2000 "order-2") demo_state =
    (Threw e, demo_state) ∧
  e ≠ quantity_error.
Proof.
  intros dto e.
  assert (create dto "bob" None (demo_env 2000 "order-2") demo_state =
          (Threw e, demo_state)) as Hc by reflexivity.
  split; [exact Hc|].
  exact (proj1 (proj2 (proj1
           (create_behind_the_pipe (fun _ => true) dto "bob" None
              (demo_env 2000 "order-2") demo_state e demo_state
              eq_refl Hc)))).
Defined.

Lemma valid_PaginationDto_range pg :
  valid_PaginationDto (query_of pg) = true →
  1 ≤ default 1 (page pg) ∧
  1 ≤ default 20 (limit pg) ∧ default 20 (limit pg) ≤ 100.
Proof.
  unfold valid_PaginationDto, query_of. cbn [q_page q_limit].
  intros [Hp Hl]%andb_true_iff.
  assert (1 ≤ default 1 (page pg)) as Hpage.
  { destruct (page pg) as [p|]; cbn in *; [|lia].
    apply andb_true_iff in Hp as [_ Hp]. apply Qle_bool_iff in Hp.
    unfold Qle, inject_Z in Hp. cbn in Hp. lia. }
  split; [exact Hpage|].
  destruct (limit pg) as [l|]; cbn in *; [|lia].
  apply andb_true_iff in Hl as [[_ Hmin]%andb_true_iff Hmax].
  apply Qle_bool_iff in Hmin, Hmax.
  unfold Qle, inject_Z in Hmin, Hmax. cbn in Hmin, Hmax. lia.
Qed.

(** The decorators let through numbers that are not integers. *)
Example decorators_admit_fractions :
  valid_PaginationDto
    (mkPaginationQuery (Some (Rational (3 # 2))) (Some (Rational (5 # 2))))
  = true.
Proof. reflexivity. Qed.

(** X14. Behind the pipe, [findAll].  For a query that passes the
    decorators of [PaginationDto] and whose page and limit are integers,
    a page that [findAll] returns is a page of number 1 or more and holds
    at most [limit] orders, never more than 100. *)
Theorem findAll_behind_the_pipe pg user st found :
  valid_PaginationDto (query_of pg) = true →
  findAll pg user st = Returned found →
  1 ≤ meta_page found ∧
  1 ≤ meta_limit found ∧ meta_limit found ≤ 100 ∧
  Z.of_nat (length (data found)) ≤ meta_limit found.
Proof.
  intros Hvalid Hfind.
  destruct (valid_PaginationDto_range pg Hvalid) as (Hp & Hl & Hmax).
  rewrite findAll_in_range in Hfind by lia. injection Hfind as <-.
  cbn [data meta_limit meta_page]. split_and!; try done.
  rewrite length_take. lia.
Qed.

Lemma findAll_behind_the_pipe_witness :
  ∃ found,
    findAll (mkPagination (Some 1) (Some 100)) (mkUser (Some "alice") CUSTOMER)
      demo_two_orders = Returned found ∧
    Z.of_nat (length (data found)) ≤ 100.
Proof.
  destruct (findAll (mkPagination (Some 1) (Some 100))
              (mkUser (Some "alice") CUSTOMER) demo_two_orders)
    as [found|e] eqn:Hfind; [|vm_compute in Hfind; discriminate].
  exists found. split; [reflexivity|].
  destruct (findAll_behind_the_pipe (mkPagination (Some 1) (Some 100))
              (mkUser (Some "alice") CUSTOMER) demo_two_orders found
              eq_refl Hfind) as (_ & _ & Hmax & Hlen).
  lia.
Defined.

(** ** Stored orders under every call that writes *)

Lemma products_ops_keep_orders :
  (∀ dto uuid st, orders (ProductsService.create dto uuid st).2 = orders st) ∧
  (∀ id dto st, orders (ProductsService.update id dto st).2 = orders st).
Proof.
  split.
  - intros dto uuid st. unfold ProductsService.create.
    destruct (products st !! uuid); [done|].
    by destruct (ProductsService.title_taken _ _ _).
  - intros id dto st. unfold ProductsService.update, ProductsService.findOne.
    destruct (products st !! id); [|done].
    by destruct (from_option _ _ _).
Qed.

Lemma same_but_status_refl o : same_but_status o o.
Proof. by repeat split. Qed.

Lemma same_but_status_trans o1 o2 o3 :
  same_but_status o1 o2 → same_but_status o2 o3 → same_but_status o1 o3.
Proof. unfold same_but_status. intros (?&?&?&?) (?&?&?&?). split_and!; congruence. Qed.

Lemma step_keeps_orders op st oid o :
  orders st !! oid = Some o →
  ∃ o', orders (step op st) !! oid = Some o' ∧ same_but_status o o'.
Proof.
  intros Ho. destruct op as [r|oid' dto|dto uuid|id dto]; cbn [step].
  - exists o. split; [|apply same_but_status_refl].
    eapply lookup_weaken; [|apply create_orders_grow]. exact Ho.
  - destruct (orders st !! oid') as [o1|] eqn:Ho1.
    + rewrite (updateStatus_found _ _ _ _ Ho1). cbn.
      destruct (decide (oid' = oid)) as [->|Hne].
      * rewrite lookup_insert_eq. eexists. split; [done|].
        rewrite Ho in Ho1. injection Ho1 as <-. by repeat split.
      * rewrite lookup_insert_ne by done. exists o.
        split; [done|apply same_but_status_refl].
    + rewrite (updateStatus_missing _ _ _ Ho1). exists o.
      split; [done|apply same_but_status_refl].
  - rewrite (proj1 products_ops_keep_orders). exists o.
    split; [done|apply same_but_status_refl].
  - rewrite (proj2 products_ops_keep_orders). exists o.
    split; [done|apply same_but_status_refl].
Qed.

(** X15. Stored orders are frozen.  Whatever placements, status updates,
    product creations and product updates follow, in whatever order, an
    order that is stored stays stored under its id with its buyer, its
    total, its creation time and its item rows (unit prices and line
    totals included); only its status can change. *)
Theorem stored_orders_are_frozen ops st oid o :
  orders st !! oid = Some o →
  ∃ o', orders (steps ops st) !! oid = Some o' ∧ same_but_status o o'.
Proof.
  revert st o. induction ops as [|op ops IH]; intros st o Ho.
  - exists o. split; [done|apply same_but_status_refl].
  - cbn [steps foldl].
    destruct (step_keeps_orders op st oid o Ho) as (o1 & Ho1 & H1).
    destruct (IH _ _ Ho1) as (o2 & Ho2 & H2).
    exists o2. split; [done|]. by eapply same_but_status_trans.
Qed.

Lemma stored_orders_are_frozen_witness :
  let ops := [ChangeProduct "prod-P"
                (mkUpdateProductDto None (Some 99999) None None);
              SetStatus "order-1" (mkUpdateStatus PAID)] in
  ∃ o', orders (steps ops demo_two_orders) !! "order-1" = Some o' ∧
        totalFils o' = 20250.
Proof.
  intros ops.
  destruct (stored_orders_are_frozen ops demo_two_orders "order-1"
              (mkOrder "alice" PENDING 20250 1000
                 [mkOrderItem "prod-P" 2 10000 20000;
                  mkOrderItem "prod-Q" 1 250 250]) eq_refl)
    as (o' & Ho' & _ & Htot & _).
  exists o'. exact (conj Ho' Htot).
Defined.

Lemma priced_order_wf tbl its ois total uid t :
  Forall2 (priced tbl) its ois → total = sum_lines ois →
  order_wf (mkOrder uid PENDING total t ois).
Proof.
  intros HF ->. split; [done|]. cbn [order_items].
  induction HF as [|d it its ois (p & _ & Hq & _ & ->) _ IH];
    constructor; [|done].
  cbn. split; [done|lia].
Qed.

Lemma create_orders_wf dto uid key env st :
  orders_wf st → orders_wf (create dto uid key env st).2.
Proof.
  intros Hinv.
  destruct (recent_order uid key (now_check env) (recentOrders st))
    as [oid|] eqn:Hrec.
  { by rewrite (create_replay_state _ _ _ _ _ oid). }
  destruct (create dto uid key env st) as [[r|e] st'] eqn:Hc; cycle 1.
  { by rewrite (create_threw _ _ _ _ _ _ _ Hc). }
  destruct (create_fresh _ _ _ _ _ _ _ Hrec Hc)
    as (total & ois & tbl & Hprice & Hid & _ & _ & ->).
  cbn [snd]. unfold orders_wf.
  destruct (remember_tables uid key env (db_uuid env)
              (set_products tbl
                 (set_orders
                    (<[db_uuid env :=
                         mkOrder uid PENDING total (db_now env) ois]>
                       (orders st)) st))) as [_ ->].
  cbn [orders set_products set_orders].
  apply map_Forall_insert_2; [|done].
  apply price_order_inr in Hprice as (_ & _ & _ & Htot & HF).
  by eapply priced_order_wf.
Qed.

Lemma step_orders_wf op st : orders_wf st → orders_wf (step op st).
Proof.
  intros Hinv. destruct op as [r|oid dto|dto uuid|id dto]; cbn [step].
  - unfold serve. by apply create_orders_wf.
  - destruct (orders st !! oid) as [o|] eqn:Ho.
    + rewrite (updateStatus_found _ _ _ _ Ho). cbn [snd].
      unfold orders_wf. cbn [orders set_orders].
      apply map_Forall_insert_2; [|done]. exact (Hinv oid o Ho).
    + by rewrite (updateStatus_missing _ _ _ Ho).
  - unfold orders_wf. by rewrite (proj1 products_ops_keep_orders).
  - unfold orders_wf. by rewrite (proj2 products_ops_keep_orders).
Qed.

(** X16. Totals add up for good.  From a store in which every order's
    total is the sum of its line totals and every line total is its unit
    price times its positive quantity (an empty store, for one), the same
    holds after any sequence of placements, status updates, product
    creations and product updates. *)
Theorem order_totals_always_add_up ops st :
  orders_wf st → orders_wf (steps ops st).
Proof.
  revert st. induction ops as [|op ops IH]; intros st Hinv; [done|].
  cbn [steps foldl]. by apply IH, step_orders_wf.
Qed.

Lemma order_totals_always_add_up_witness :
  orders_wf demo_state ∧
  orders_wf
    (steps [PlaceOrder (mkRequest demo_order "alice" None
                          (demo_env 1000 "order-1"));
            ChangeProduct "prod-P"
              (mkUpdateProductDto None (Some 5) None None);
            SetStatus "order-1" (mkUpdateStatus CANCELLED)] demo_state).
Proof.
  assert (orders_wf demo_state) as Hinv by (apply map_Forall_empty).
  split; [exact Hinv|].
  by apply order_totals_always_add_up.
Defined.

(** ** Products and the orders placed on them *)

Lemma update_returned id dto st p' st' :
  ProductsService.update id dto st = (Returned p', st') →
  ∃ p, products st !! id = Some p ∧ p' = ProductsService.apply_update dto p ∧
       st' = set_products (<[id := p']> (products st)) st.
Proof.
  unfold ProductsService.update, ProductsService.findOne.
  destruct (products st !! id) as [p|]; [|done].
  destruct (from_option _ _ _); [done|].
  intros [= <- <-]. by exists p.
Qed.

(** X17. Taking a product off the catalog.  After an update that sets
    [isActive] to false has returned, [ProductsService.findOne] still
    returns the product, now inactive, and every placement that names it
    and is not answered from the cache is rejected with "One or more
    products not found", the state unchanged. *)
Theorem inactive_product_cannot_be_ordered
    id dto st p' st1 order uid key env :
  up_isActive dto = Some false →
  ProductsService.update id dto st = (Returned p', st1) →
  ProductsService.findOne id st1 = Returned p' ∧ isActive p' = false ∧
  (recent_order uid key (now_check env) (recentOrders st1) = None →
   id ∈ map productId (items order) →
   create order uid key env st1 = (Threw products_not_found_error, st1)).
Proof.
  intros Hoff Hup.
  destruct (update_returned _ _ _ _ _ Hup) as (p & Hp & -> & ->).
  assert (products (set_products
                      (<[id := ProductsService.apply_update dto p]>
                         (products st)) st) !! id =
          Some (ProductsService.apply_update dto p)) as Hrow
    by apply lookup_insert_eq.
  assert (isActive (ProductsService.apply_update dto p) = false) as Hact.
  { unfold ProductsService.apply_update. cbn. by rewrite Hoff. }
  split_and!.
  - unfold ProductsService.findOne. by rewrite Hrow.
  - done.
  - intros Hrec Hin. apply list_elem_of_fmap in Hin as (d & -> & Hd).
    apply create_rejects; [done|].
    apply (price_order_unresolved _ _ d); [done|].
    unfold resolves. rewrite Hrow. cbn [fmap option_fmap option_map].
    rewrite Hact. intros [=].
Qed.

Lemma inactive_product_cannot_be_ordered_witness :
  let off := (ProductsService.update "prod-P" deactivation demo_state).2 in
  create demo_order "alice" None (demo_env 1000 "order-1") off =
  (Threw products_not_found_error, off).
Proof.
  intros off.
  refine (proj2 (proj2 (inactive_product_cannot_be_ordered "prod-P"
            deactivation demo_state (mkProduct "Widget" 10000 5 false) off
            demo_order "alice" None (demo_env 1000 "order-1") _ _)) _ _).
  - reflexivity.
  - reflexivity.
  - reflexivity.
  - apply (bool_decide_unpack _). vm_compute. exact I.
Defined.

(** A placement of one active product within its stock passes every
    check and reaches the transaction priced at price times quantity. *)
Lemma create_begin_single_item k q uid key now st p :
  recent_order uid key now (recentOrders st) = None →
  products st !! k = Some p → isActive p = true →
  0 < q → q ≤ stock p →
  create_begin (mkCreateOrderDto [mkItemDto k q]) uid key now st =
    Commit (priceFils p * q) [mkOrderItem k q (priceFils p) (priceFils p * q)].
Proof.
  intros Hrec Hp Hact Hq Hs.
  set (dto := mkCreateOrderDto [mkItemDto k q]).
  destruct (price_order_accepts dto (products st)) as (total & ois & Hprice).
  { done. }
  { apply NoDup_singleton. }
  { repeat constructor. by exists p. }
  unfold create_begin. rewrite Hrec, Hprice.
  apply price_order_inr in Hprice as (_ & _ & _ & -> & HF).
  subst dto. cbn [items] in HF.
  apply Forall2_cons_inv_l in HF
    as (it & rest & (p2 & Hp2 & _ & _ & ->) & HF & ->).
  apply Forall2_nil_inv_l in HF as ->.
  cbn [productId] in Hp2. rewrite Hp in Hp2. injection Hp2 as <-.
  unfold line_of. cbn [sum_lines foldr lineTotalFils productId qty].
  by rewrite Z.add_0_r.
Qed.

(** What a placement of one item holds and leaves when it returns. *)
Lemma create_single_item_returned k q uid key env st p v st' :
  recent_order uid key (now_check env) (recentOrders st) = None →
  products st !! k = Some p →
  create (mkCreateOrderDto [mkItemDto k q]) uid key env st =
    (Returned (Some v), st') →
  v_totalFils v = priceFils p * q ∧
  map iv_item (v_items v) =
    [mkOrderItem k q (priceFils p) (priceFils p * q)] ∧
  stock_of k st' = stock p - q.
Proof.
  intros Hrec Hp Hc.
  set (dto := mkCreateOrderDto [mkItemDto k q]) in *.
  pose proof (create_fresh_item dto uid key env st _ st' (mkItemDto k q)
                Hrec Hc) as Hitem.
  destruct Hitem as (p1 & Hp1 & _ & _ & Hst'); [apply list_elem_of_here|].
  cbn [productId qty] in Hp1, Hst'. rewrite Hp in Hp1. injection Hp1 as <-.
  destruct (create_fresh _ _ _ _ _ _ _ Hrec Hc)
    as (total & ois & tbl & Hprice & _ & _ & Hv & _).
  apply price_order_inr in Hprice as (_ & _ & _ & -> & HF).
  subst dto. cbn [items] in HF.
  apply Forall2_cons_inv_l in HF
    as (it & rest & (p2 & Hp2 & _ & _ & ->) & HF & ->).
  apply Forall2_nil_inv_l in HF as ->.
  cbn [productId] in Hp2. rewrite Hp in Hp2. injection Hp2 as <-.
  injection Hv as ->. split_and!.
  - unfold line_of. cbn. lia.
  - by rewrite view_with_products_rows.
  - unfold stock_of. by rewrite Hst'.
Qed.

(** X18. A new product can be ordered.  After [ProductsService.create] has
    returned a product that the request did not mark inactive, a placement
    of a positive quantity within its stock, of that product alone and
    not answered from the cache, passes every check of [create] and
    reaches the transaction with one line at the price of the product;
    when the call returns its order, the order costs price times quantity
    and the stock is lower by the quantity. *)
Theorem new_product_can_be_ordered
    cdto pid st row st1 q uid key env :
  ProductsService.create cdto pid st = (Returned (pid, row), st1) →
  cp_isActive cdto ≠ Some false →
  0 < q → q ≤ cp_stock cdto →
  recent_order uid key (now_check env) (recentOrders st1) = None →
  (∃ total lineTotal,
     create_begin (mkCreateOrderDto [mkItemDto pid q]) uid key
       (now_check env) st1 =
     Commit total [mkOrderItem pid q (cp_priceFils cdto) lineTotal]) ∧
  (∀ v st2,
     create (mkCreateOrderDto [mkItemDto pid q]) uid key env st1 =
       (Returned (Some v), st2) →
     v_totalFils v = cp_priceFils cdto * q ∧
     stock_of pid st2 = cp_stock cdto - q).
Proof.
  intros Hcreate Hactive Hq Hs Hrec.
  unfold ProductsService.create in Hcreate.
  destruct (products st !! pid); [done|].
  destruct (ProductsService.title_taken _ _ _); [done|].
  injection Hcreate as <- <-.
  set (row := mkProduct (cp_title cdto) (cp_priceFils cdto) (cp_stock cdto)
                (default true (cp_isActive cdto))) in *.
  set (st1 := set_products (<[pid := row]> (products st)) st) in *.
  assert (products st1 !! pid = Some row) as Hrow by apply lookup_insert_eq.
  split.
  - eexists _, _.
    apply (create_begin_single_item pid q uid key (now_check env) st1 row);
      try done.
    subst row. cbn. by destruct (cp_isActive cdto) as [[]|].
  - intros v st2 Hc.
    destruct (create_single_item_returned pid q uid key env st1 row v st2
                Hrec Hrow Hc) as (Htotal & _ & Hstock).
    done.
Qed.

Lemma new_product_can_be_ordered_witness :
  let cdto := mkCreateProductDto "Lamp" None 700 3 None in
  let st1 := (ProductsService.create cdto "prod-L" demo_state).2 in
  let placed := create (mkCreateOrderDto [mkItemDto "prod-L" 2]) "alice" None
                  (demo_env 1000 "order-1") st1 in
  (∃ total lineTotal,
     create_begin (mkCreateOrderDto [mkItemDto "prod-L" 2]) "alice" None 1000
       st1 = Commit total [mkOrderItem "prod-L" 2 700 lineTotal]) ∧
  v_totalFils <$> returned placed.1 = Some 1400 ∧
  stock_of "prod-L" placed.2 = 1.
Proof.
  intros cdto st1 placed.
  assert (cp_isActive cdto ≠ Some false) as Hact by (intros [=]).
  assert (0 < 2) as Hq by lia.
  assert (2 ≤ cp_stock cdto) as Hs by (simpl; lia).
  pose proof (new_product_can_be_ordered cdto "prod-L" demo_state
                (mkProduct "Lamp" 700 3 true) st1 2 "alice" None
                (demo_env 1000 "order-1") eq_refl Hact Hq Hs eq_refl)
    as [Hbegin Hend].
  pose (v := view_with_products (products st1) "order-1"
               (mkOrder "alice" PENDING 1400 1000
                  [mkOrderItem "prod-L" 2 700 1400])).
  assert (create (mkCreateOrderDto [mkItemDto "prod-L" 2]) "alice" None
            (demo_env 1000 "order-1") st1 = (Returned (Some v), placed.2))
    as Hc by (vm_compute; reflexivity).
  split; [exact Hbegin|]. split; [vm_compute; reflexivity|].
  exact (proj2 (Hend v placed.2 Hc)).
Defined.

(** X19. The price at the time of the call.  After a product update has
    returned, a placement of that product alone (active and in stock, not
    answered from the cache) reaches the transaction with its line at the
    product's price after the update, which is the price the update gave
    or, when it gave none, the price before; an order the call returns
    has its one line at that price, with price times quantity as the
    line total. *)
Theorem placement_uses_the_updated_price
    id udto st p' st1 q uid key env :
  ProductsService.update id udto st = (Returned p', st1) →
  isActive p' = true → 0 < q → q ≤ stock p' →
  recent_order uid key (now_check env) (recentOrders st1) = None →
  (∃ total lineTotal,
     create_begin (mkCreateOrderDto [mkItemDto id q]) uid key
       (now_check env) st1 =
     Commit total [mkOrderItem id q (priceFils p') lineTotal]) ∧
  priceFils p' =
    default (from_option priceFils 0 (products st !! id))
      (up_priceFils udto) ∧
  (∀ v st2,
     create (mkCreateOrderDto [mkItemDto id q]) uid key env st1 =
       (Returned (Some v), st2) →
     map iv_item (v_items v) =
       [mkOrderItem id q (priceFils p') (priceFils p' * q)]).
Proof.
  intros Hup Hact Hq Hs Hrec.
  destruct (update_returned _ _ _ _ _ Hup) as (p & Hp & -> & ->).
  set (row := ProductsService.apply_update udto p) in *.
  set (st1 := set_products (<[id := row]> (products st)) st) in *.
  assert (products st1 !! id = Some row) as Hrow by apply lookup_insert_eq.
  split_and!.
  - eexists _, _.
    by apply (create_begin_single_item id q uid key (now_check env) st1 row).
  - rewrite Hp. done.
  - intros v st2 Hc.
    destruct (create_single_item_returned id q uid key env st1 row v st2
                Hrec Hrow Hc) as (_ & Hrows & _).
    done.
Qed.

Lemma placement_uses_the_updated_price_witness :
  let udto := mkUpdateProductDto None (Some 12000) None None in
  let st1 := (ProductsService.update "prod-P" udto demo_state).2 in
  let placed := create (mkCreateOrderDto [mkItemDto "prod-P" 2]) "alice" None
                  (demo_env 1000 "order-1") st1 in
  (∃ total lineTotal,
     create_begin (mkCreateOrderDto [mkItemDto "prod-P" 2]) "alice" None 1000
       st1 = Commit total [mkOrderItem "prod-P" 2 12000 lineTotal]) ∧
  (map iv_item ∘ v_items) <$> returned placed.1 =
    Some [mkOrderItem "prod-P" 2 12000 24000].
Proof.
  intros udto st1 placed.
  assert (0 < 2) as Hq by lia.
  assert (2 ≤ stock (mkProduct "Widget" 12000 5 true)) as Hs by (simpl; lia).
  pose proof (placement_uses_the_updated_price "prod-P" udto demo_state
                (mkProduct "Widget" 12000 5 true) st1 2 "alice" None
                (demo_env 1000 "order-1") eq_refl eq_refl Hq Hs eq_refl)
    as (Hbegin & _ & Hend).
  pose (v := view_with_products (products st1) "order-1"
               (mkOrder "alice" PENDING 24000 1000
                  [mkOrderItem "prod-P" 2 12000 24000])).
  assert (create (mkCreateOrderDto [mkItemDto "prod-P" 2]) "alice" None
            (demo_env 1000 "order-1") st1 = (Returned (Some v), placed.2))
    as Hc by (vm_compute; reflexivity).
  split; [exact Hbegin|].
  assert (placed.1 = Returned (Some v)) as -> by (vm_compute; reflexivity).
  cbn [returned fmap option_fmap option_map compose].
  exact (f_equal Some (Hend v placed.2 Hc)).
Defined.

(** ** Users and registration *)

Section Auth.
Context `{Externals}.

Lemma findByEmail_Some email (users : gmap string User) id u :
  UsersService.findByEmail email users = Some (id, u) →
  users !! id = Some u ∧ u_email u = email.
Proof.
  unfold UsersService.findByEmail. intros Hhead.
  apply head_Some_elem_of in Hhead.
  apply elem_of_map_to_list in Hhead.
  by apply map_lookup_filter_Some in Hhead.
Qed.

Lemma findByEmail_None email (users : gmap string User) :
  UsersService.findByEmail email users = None ↔ ¬ email_taken email users.
Proof.
  unfold UsersService.findByEmail, email_taken. rewrite head_None. split.
  - intros Hnil (id & u & Hu & He).
    assert ((id, u) ∈ map_to_list
              (filter (fun kv : string * User => u_email kv.2 = email) users))
      as Hin.
    { apply elem_of_map_to_list. by apply map_lookup_filter_Some. }
    rewrite Hnil in Hin. by apply elem_of_nil in Hin.
  - intros Hfree.
    destruct (map_to_list
                (filter (fun kv : string * User => u_email kv.2 = email) users))
      as [|[id u] l] eqn:Hl; [done|].
    exfalso. apply Hfree.
    assert ((id, u) ∈ map_to_list
              (filter (fun kv : string * User => u_email kv.2 = email) users))
      as Hin by (rewrite Hl; apply list_elem_of_here).
    apply elem_of_map_to_list, map_lookup_filter_Some in Hin as [Hu He].
    by exists id, u.
Qed.

Lemma findByEmail_unique (users : gmap string User) id u :
  emails_unique users → users !! id = Some u →
  UsersService.findByEmail (u_email u) users = Some (id, u).
Proof.
  intros Huniq Hu.
  destruct (UsersService.findByEmail (u_email u) users) as [[id' u']|] eqn:Hf.
  - apply findByEmail_Some in Hf as [Hu' He].
    assert (id' = id) as -> by by eapply Huniq.
    congruence.
  - apply findByEmail_None in Hf. exfalso. apply Hf. by exists id, u.
Qed.

(** What [register] does to the table, case by case. *)
Lemma register_cases dto env (users : gmap string User) :
  (email_taken (reg_email dto) users ∧
   AuthService.register dto env users =
     (inl (Http (ConflictException "User with this email already exists")),
      users)) ∨
  (¬ email_taken (reg_email dto) users ∧ is_Some (users !! user_uuid env) ∧
   AuthService.register dto env users =
     (inl (Http (PrismaError "P2002")), users)) ∨
  (¬ email_taken (reg_email dto) users ∧ users !! user_uuid env = None ∧
   AuthService.register dto env users =
     (AuthService.generateTokens
        (view_of_user (user_uuid env) (registered_row dto env)),
      <[user_uuid env := registered_row dto env]> users)).
Proof.
  unfold AuthService.register, UsersService.create. cbn [nu_email].
  destruct (UsersService.findByEmail (reg_email dto) users) as [[id u]|] eqn:Hf.
  - left. split; [|done]. apply findByEmail_Some in Hf as [Hu He].
    by exists id, u.
  - right. apply findByEmail_None in Hf.
    destruct (users !! user_uuid env) as [u|] eqn:Hid.
    + left. split; [done|]. split; [by exists u|done].
    + right. split; [done|]. split; [done|done].
Qed.

End Auth.

Section AuthProperties.
Context `{Externals}.

Lemma register_stores dto env (users : gmap string User) :
  ¬ email_taken (reg_email dto) users → users !! user_uuid env = None →
  (AuthService.register dto env users).2 =
  <[user_uuid env := registered_row dto env]> users.
Proof.
  intros Hfree Hid.
  destruct (register_cases dto env users)
    as [[Htaken _]|[(_ & [u Hu] & _)|(_ & _ & ->)]]; [done|congruence|done].
Qed.

(** X20. One account per email.  A registration under an email some user
    has is refused with [ConflictException] and changes nothing.  Once a
    registration under a free email and an unused id has run, whether it
    returned tokens or failed while signing them, every later
    registration under that email is refused in that way. *)
Theorem register_refuses_a_second_account dto env users :
  (email_taken (reg_email dto) users →
   AuthService.register dto env users =
     (inl (Http (ConflictException "User with this email already exists")),
      users)) ∧
  (¬ email_taken (reg_email dto) users → users !! user_uuid env = None →
   ∀ dto2 env2,
     reg_email dto2 = reg_email dto →
     AuthService.register dto2 env2 (AuthService.register dto env users).2 =
       (inl (Http (ConflictException "User with this email already exists")),
        (AuthService.register dto env users).2)).
Proof.
  assert (∀ d e us, email_taken (reg_email d) us →
            AuthService.register d e us =
            (inl (Http (ConflictException
                          "User with this email already exists")), us))
    as Htaken.
  { intros d e us Ht.
    destruct (register_cases d e us) as [[_ ->]|[(Hf & _)|(Hf & _)]]; done. }
  split; [apply Htaken|].
  intros Hfree Hid dto2 env2 Hsame. apply Htaken.
  rewrite register_stores by done. rewrite Hsame.
  exists (user_uuid env), (registered_row dto env).
  split; [apply lookup_insert_eq|done].
Qed.

Lemma register_all_cons c calls (users : gmap string User) :
  register_all (c :: calls) users =
  register_all calls (AuthService.register c.1 c.2 users).2.
Proof. done. Qed.

Lemma register_table dto env (users : gmap string User) :
  (AuthService.register dto env users).2 = users ∨
  (¬ email_taken (reg_email dto) users ∧ users !! user_uuid env = None ∧
   (AuthService.register dto env users).2 =
     <[user_uuid env := registered_row dto env]> users).
Proof.
  destruct (register_cases dto env users)
    as [[_ ->]|[(_ & _ & ->)|(Hf & Hid & ->)]]; [by left..|by right].
Qed.

(** X21. Registration never makes an admin.  Whatever registrations run,
    one after the other, the admins among the users are the admins there
    were, and no row that was there is changed or removed. *)
Theorem registration_never_makes_an_admin calls users :
  admins (register_all calls users) = admins users ∧
  users ⊆ register_all calls users.
Proof.
  revert users. induction calls as [|[dto env] calls IH]; intros users.
  - done.
  - rewrite register_all_cons. cbn [fst snd].
    destruct (IH (AuthService.register dto env users).2) as [Hadm Hsub].
    destruct (register_table dto env users) as [Heq|(_ & Hid & Heq)];
      rewrite Heq in Hadm, Hsub |- *.
    + done.
    + split.
      * rewrite Hadm. unfold admins.
        apply map_filter_insert_not'; [done|]. intros y Hy. congruence.
      * etrans; [|exact Hsub]. by apply insert_subseteq.
Qed.

(** X22. Register, then log in.  After a registration under a free email
    and an unused id, [validateUser] with that email returns the new
    user, as a customer and without the hash, for every password
    [bcrypt.compare] accepts against the stored hash, and [null] for
    every password it does not accept. *)
Theorem register_then_validateUser dto env users password :
  ¬ email_taken (reg_email dto) users → users !! user_uuid env = None →
  AuthService.validateUser (reg_email dto) password
    (AuthService.register dto env users).2 =
  if bcrypt_compare password (bcrypt_hashed env)
  then Some (mkUserView (user_uuid env) (reg_email dto) CUSTOMER
               (user_now env))
  else None.
Proof.
  intros Hfree Hid. rewrite register_stores by done.
  unfold AuthService.validateUser.
  destruct (UsersService.findByEmail (reg_email dto)
              (<[user_uuid env := registered_row dto env]> users))
    as [[id u]|] eqn:Hf.
  - apply findByEmail_Some in Hf as [Hu He].
    destruct (decide (id = user_uuid env)) as [->|Hne].
    + rewrite lookup_insert_eq in Hu. injection Hu as <-. done.
    + rewrite lookup_insert_ne in Hu by done.
      exfalso. apply Hfree. by exists id, u.
  - apply findByEmail_None in Hf. exfalso. apply Hf.
    exists (user_uuid env), (registered_row dto env).
    split; [apply lookup_insert_eq|done].
Qed.

(** X23. Refresh tokens.  [JwtRefreshStrategy.validate] returns a user
    exactly when the token verifies under the refresh secret and the
    user its subject names is stored; the user it returns has the email
    and the role of the stored row, not those written in the token.  In
    every other case it throws [UnauthorizedException] "Invalid refresh
    token": the "User not found" of [validateRefreshToken] is never seen,
    and [validateRefreshToken] never returns [null]. *)
Theorem refresh_token_validation token users :
  (∀ ru, JwtRefreshStrategy.validate token users = inr ru ↔
         ∃ payload u,
           jwt_verify token (config_get "JWT_REFRESH_SECRET") = Some payload ∧
           users !! tp_sub payload = Some u ∧
           ru = mkRequestUser (tp_sub payload) (u_email u) (u_role u)) ∧
  (∀ e, JwtRefreshStrategy.validate token users = inl e →
        e = UnauthorizedException "Invalid refresh token") ∧
  AuthService.validateRefreshToken token users ≠ inr None.
Proof.
  unfold JwtRefreshStrategy.validate, AuthService.validateRefreshToken,
    AuthService.verified_user, UsersService.findById.
  destruct (jwt_verify token (config_get "JWT_REFRESH_SECRET"))
    as [payload|] eqn:Hv; cycle 1.
  { split_and!; [|by intros e [= <-]|done].
    intros ru. split; [done|]. by intros (p & u & Hp & _). }
  destruct (users !! tp_sub payload) as [u|] eqn:Hu; cbn.
  - split_and!; [|done|done]. intros ru. split.
    + intros [= <-]. by exists payload, u.
    + intros (p & u' & [= <-] & Hu' & ->).
      rewrite Hu in Hu'. by injection Hu' as <-.
  - split_and!; [|by intros e [= <-]|done].
    intros ru. split; [done|].
    intros (p & u & [= <-] & Hu' & _). congruence.
Qed.

Lemma register_emails_unique dto env (users : gmap string User) :
  emails_unique users →
  emails_unique (AuthService.register dto env users).2.
Proof.
  intros Huniq.
  destruct (register_table dto env users) as [->|(Hfree & Hid & ->)];
    [done|].
  intros id1 id2 u1 u2 H1 H2 He.
  destruct (decide (id1 = user_uuid env)) as [->|Hne1];
    destruct (decide (id2 = user_uuid env)) as [->|Hne2]; [done| | |].
  - rewrite lookup_insert_eq in H1. rewrite lookup_insert_ne in H2 by done.
    injection H1 as <-. exfalso. apply Hfree. by exists id2, u2.
  - rewrite lookup_insert_ne in H1 by done. rewrite lookup_insert_eq in H2.
    injection H2 as <-. exfalso. apply Hfree. by exists id1, u1.
  - rewrite lookup_insert_ne in H1, H2 by done. by eapply Huniq.
Qed.

(** X24. Emails stay unique.  From a table in which no two users share an
    email, no sequence of registrations reaches a table in which two
    do. *)
Theorem registration_keeps_emails_unique calls users :
  emails_unique users → emails_unique (register_all calls users).
Proof.
  revert users. induction calls as [|[dto env] calls IH]; intros users Huniq.
  - done.
  - rewrite register_all_cons. by apply IH, register_emails_unique.
Qed.

End AuthProperties.

Lemma demo_users_emails_unique : emails_unique demo_users.
Proof.
  intros id1 id2 u1 u2 H1 H2 _. unfold demo_users in *.
  apply lookup_insert_Some in H1 as [[<- _]|[_ H1]];
    [|by rewrite lookup_empty in H1].
  apply lookup_insert_Some in H2 as [[<- _]|[_ H2]];
    [done|by rewrite lookup_empty in H2].
Qed.

Lemma demo_email_free :
  ¬ email_taken "customer@example.com" demo_users.
Proof.
  intros (id & u & Hu & He). unfold demo_users in Hu.
  apply lookup_insert_Some in Hu as [[_ <-]|[_ Hu]];
    [done|by rewrite lookup_empty in Hu].
Qed.

Lemma register_refuses_a_second_account_witness :
  let first := @AuthService.register demo_externals demo_registration.1
                 demo_registration.2 demo_users in
  @AuthService.register demo_externals
    (mkRegisterDto "customer@example.com" "another")
    (mkRegisterEnv "hash of another" "user-2" 60) first.2 =
  (inl (Http (ConflictException "User with this email already exists")),
   first.2).
Proof.
  intros first.
  apply (proj2 (@register_refuses_a_second_account demo_externals
                  demo_registration.1 demo_registration.2 demo_users)).
  - exact demo_email_free.
  - reflexivity.
  - reflexivity.
Defined.

Lemma register_then_validateUser_witness :
  @AuthService.validateUser demo_externals "customer@example.com"
    "password123"
    (@AuthService.register demo_externals demo_registration.1
       demo_registration.2 demo_users).2 =
  Some (mkUserView "user-1" "customer@example.com" CUSTOMER 50).
Proof.
  exact (@register_then_validateUser demo_externals demo_registration.1
           demo_registration.2 demo_users "password123" demo_email_free
           eq_refl).
Defined.

Lemma registration_keeps_emails_unique_witness :
  emails_unique demo_users ∧
  emails_unique
    (@register_all demo_externals [demo_registration; demo_registration]
       demo_users).
Proof.
  split; [exact demo_users_emails_unique|].
  apply (@registration_keeps_emails_unique demo_externals).
  exact demo_users_emails_unique.
Defined.

Lemma refresh_token_validation_witness :
  @JwtRefreshStrategy.validate demo_externals "refresh-of-root" demo_users =
    inr (mkRequestUser "user-0" "admin@example.com" ADMIN) ∧
  @JwtRefreshStrategy.validate demo_externals "forged" demo_users =
    inl (UnauthorizedException "Invalid refresh token").
Proof.
  destruct (@refresh_token_validation demo_externals "refresh-of-root"
              demo_users) as (Hok & _ & _).
  destruct (@refresh_token_validation demo_externals "forged" demo_users)
    as (_ & Hbad & _).
  split.
  - apply Hok.
    exists (mkPayload "user-0" "stale@example.com" CUSTOMER),
      (mkUserRow "admin@example.com" "hash of admin123" ADMIN 0).
    split_and!; reflexivity.
  - destruct (@JwtRefreshStrategy.validate demo_externals "forged"
                demo_users) as [e|ru] eqn:Hv.
    + by rewrite (Hbad e eq_refl).
    + vm_compute in Hv. discriminate Hv.
Defined.

(** ** Product updates *)

Lemma product_update_stays id dto st e st' :
  ProductsService.update id dto st = (Threw e, st') → st' = st.
Proof.
  unfold ProductsService.update, ProductsService.findOne.
  destruct (products st !! id) as [p|]; [|by intros [= _ <-]].
  destruct (from_option _ _ _); [by intros [= _ <-]|done].
Qed.

(** X25. Contract and frame of a product update.  [update] throws
    [NotFoundException] exactly for an id that names no product; an
    update that throws changes nothing; an update that returns rewrites
    the one row, with every column the request leaves out as it was, and
    touches no other product, no order, and neither the cache nor the
    timers. *)
Theorem product_update_frame id dto st :
  (products st !! id = None ↔
   (ProductsService.update id dto st).1 =
     Threw (ProductsService.product_not_found id)) ∧
  (∀ e st', ProductsService.update id dto st = (Threw e, st') → st' = st) ∧
  (∀ p' st',
     ProductsService.update id dto st = (Returned p', st') →
     ∃ p, products st !! id = Some p ∧ products st' !! id = Some p' ∧
          title p' = default (title p) (up_title dto) ∧
          priceFils p' = default (priceFils p) (up_priceFils dto) ∧
          stock p' = default (stock p) (up_stock dto) ∧
          isActive p' = default (isActive p) (up_isActive dto) ∧
          (∀ k, k ≠ id → products st' !! k = products st !! k) ∧
          orders st' = orders st ∧ recentOrders st' = recentOrders st ∧
          timers st' = timers st).
Proof.
  split_and!.
  - unfold ProductsService.update, ProductsService.findOne.
    destruct (products st !! id) as [p|]; [|done].
    split; [done|]. by destruct (from_option _ _ _).
  - intros e st'. apply product_update_stays.
  - intros p' st' Hup.
    destruct (update_returned _ _ _ _ _ Hup) as (p & Hp & -> & ->).
    exists p. cbn. split_and!; try done.
    + apply lookup_insert_eq.
    + intros k Hk. by apply lookup_insert_ne.
Qed.

Lemma product_update_frame_witness :
  ProductsService.update "prod-X" deactivation demo_state =
  (Threw (ProductsService.product_not_found "prod-X"), demo_state).
Proof.
  pose proof (product_update_frame "prod-X" deactivation demo_state)
    as (Hmissing & Hthrew & _).
  assert ((ProductsService.update "prod-X" deactivation demo_state).1 =
          Threw (ProductsService.product_not_found "prod-X")) as Hout.
  { apply Hmissing. reflexivity. }
  destruct (ProductsService.update "prod-X" deactivation demo_state)
    as [out st'] eqn:Hup.
  cbn [fst] in Hout. subst out. by rewrite (Hthrew _ _ eq_refl).
Defined.

(** ** Stock under every call that writes *)

Lemma step_stock_nonneg op st :
  writes_stock_nonneg op → stock_nonneg st → stock_nonneg (step op st).
Proof.
  intros Hop Hinv. destruct op as [r|oid dto|dto uuid|id dto]; cbn [step].
  - unfold serve. by apply create_stock_nonneg.
  - destruct (orders st !! oid) as [o|] eqn:Ho.
    + by rewrite (updateStatus_found _ _ _ _ Ho).
    + by rewrite (updateStatus_missing _ _ _ Ho).
  - unfold ProductsService.create.
    destruct (products st !! uuid); [done|].
    destruct (ProductsService.title_taken _ _ _); [done|].
    cbn [snd]. unfold stock_nonneg. cbn [products set_products].
    apply map_Forall_insert_2; [exact Hop|done].
  - destruct (ProductsService.update id dto st) as [[p'|e] st'] eqn:Hup.
    + destruct (update_returned _ _ _ _ _ Hup) as (p & Hp & -> & ->).
      cbn [snd]. unfold stock_nonneg. cbn [products set_products].
      apply map_Forall_insert_2; [|done]. cbn [writes_stock_nonneg] in Hop.
      cbn. destruct (up_stock dto) as [s|]; [exact Hop|exact (Hinv id p Hp)].
    + by rewrite (product_update_stays id dto st e st' Hup).
Qed.

(** X26. Stock stays non-negative when the calls that write run in turn.
    For calls that run one after the other, each finishing before the
    next begins: from a state in which no stock is negative, no such
    sequence of placements, status updates, product creations and product
    updates reaches a state with a negative stock, as long as the stocks
    that product creations and updates write are themselves not negative.
    (Placements that overlap can take a stock below zero; see C1 and
    C2.) *)
Theorem stock_never_negative ops st :
  Forall writes_stock_nonneg ops →
  stock_nonneg st → stock_nonneg (steps ops st).
Proof.
  revert st. induction ops as [|op ops IH]; intros st Hops Hinv; [done|].
  apply Forall_cons in Hops as [Hop Hops].
  cbn [steps foldl]. by apply IH, step_stock_nonneg.
Qed.

Lemma stock_never_negative_witness :
  stock_nonneg demo_state ∧
  stock_nonneg
    (steps [ChangeProduct "prod-Q"
              (mkUpdateProductDto None None (Some 0) None);
            PlaceOrder (mkRequest demo_order "alice" None
                          (demo_env 1000 "order-1"))] demo_state).
Proof.
  assert (stock_nonneg demo_state) as Hinv.
  { apply (bool_decide_unpack _). vm_compute. exact I. }
  split; [exact Hinv|].
  apply stock_never_negative; [|exact Hinv].
  repeat constructor. simpl. lia.
Defined.

(** ** Seeding *)

Lemma find_by_title_Some t (tbl : gmap string Product) :
  is_Some (Seed.find_by_title t tbl) ↔ title_present t tbl.
Proof.
  unfold Seed.find_by_title, title_present. split.
  - intros [[id p] Hhead]. apply head_Some_elem_of in Hhead.
    apply elem_of_map_to_list, map_lookup_filter_Some in Hhead as [Hp Ht].
    by exists id, p.
  - intros (id & p & Hp & Ht).
    destruct (map_to_list
                (filter (fun kp : string * Product => title kp.2 = t) tbl))
      as [|x l] eqn:Hl; [|by eexists].
    assert ((id, p) ∈ map_to_list
              (filter (fun kp : string * Product => title kp.2 = t) tbl))
      as Hin.
    { apply elem_of_map_to_list. by apply map_lookup_filter_Some. }
    rewrite Hl in Hin. by apply elem_of_nil in Hin.
Qed.

Lemma title_present_mono t (tbl tbl' : gmap string Product) :
  tbl ⊆ tbl' → title_present t tbl → title_present t tbl'.
Proof.
  intros Hsub (id & p & Hp & Ht). exists id, p. split; [|done].
  by eapply lookup_weaken.
Qed.

Lemma upsert_product_grows row uuid (tbl tbl' : gmap string Product) :
  Seed.upsert_product row uuid tbl = Some tbl' →
  tbl ⊆ tbl' ∧ title_present row.1.1 tbl'.
Proof.
  unfold Seed.upsert_product.
  destruct (Seed.find_by_title row.1.1 tbl) as [x|] eqn:Hf.
  - intros [= <-]. split; [done|]. apply find_by_title_Some. by eexists.
  - destruct (tbl !! uuid) as [q|] eqn:Hq; [done|]. intros [= <-]. split.
    + by apply insert_subseteq.
    + eexists uuid, _. split; [apply lookup_insert_eq|done].
Qed.

Lemma upsert_products_grow rows i env (tbl : gmap string Product) :
  tbl ⊆ (Seed.upsert_products rows i env tbl).2.
Proof.
  revert i tbl. induction rows as [|row rows IH]; intros i tbl; [done|].
  cbn [Seed.upsert_products].
  destruct (Seed.upsert_product row (product_uuid env i) tbl) as [tbl1|] eqn:Hu;
    [|done].
  apply upsert_product_grows in Hu as [Hsub _].
  etrans; [exact Hsub|apply IH].
Qed.

Lemma upsert_products_done rows i env (tbl tbl' : gmap string Product) :
  Seed.upsert_products rows i env tbl = (true, tbl') →
  Forall (fun row : string * Z * Z => title_present row.1.1 tbl') rows.
Proof.
  revert i tbl. induction rows as [|row rows IH]; intros i tbl; [constructor|].
  cbn [Seed.upsert_products].
  destruct (Seed.upsert_product row (product_uuid env i) tbl) as [tbl1|] eqn:Hu;
    [|done].
  intros Hrest. constructor; [|by eapply IH].
  apply upsert_product_grows in Hu as [_ Hhere].
  eapply title_present_mono; [|exact Hhere].
  pose proof (upsert_products_grow rows (S i) env tbl1) as Hsub.
  by rewrite Hrest in Hsub.
Qed.

Lemma upsert_products_again rows i env (tbl : gmap string Product) :
  Forall (fun row : string * Z * Z => title_present row.1.1 tbl) rows →
  Seed.upsert_products rows i env tbl = (true, tbl).
Proof.
  intros Hall. revert i. induction Hall as [|row rows Hrow _ IH]; intros i;
    [done|].
  cbn [Seed.upsert_products]. unfold Seed.upsert_product.
  apply find_by_title_Some in Hrow as [x ->]. apply IH.
Qed.

Lemma upsert_admin_grows env (users users' : gmap string User) :
  Seed.upsert_admin env users = Some users' →
  users ⊆ users' ∧ email_taken "admin@example.com" users'.
Proof.
  unfold Seed.upsert_admin.
  destruct (UsersService.findByEmail "admin@example.com" users)
    as [[id u]|] eqn:Hf.
  - intros [= <-]. split; [done|].
    apply findByEmail_Some in Hf as [Hu He]. by exists id, u.
  - destruct (users !! admin_uuid env) as [q|] eqn:Hq; [done|].
    intros [= <-]. split.
    + by apply insert_subseteq.
    + eexists (admin_uuid env), _. split; [apply lookup_insert_eq|done].
Qed.

Lemma upsert_admin_again env (users : gmap string User) :
  email_taken "admin@example.com" users →
  Seed.upsert_admin env users = Some users.
Proof.
  intros Htaken. unfold Seed.upsert_admin.
  destruct (UsersService.findByEmail "admin@example.com" users)
    as [[id u]|] eqn:Hf; [done|].
  apply findByEmail_None in Hf. by destruct Hf.
Qed.

(** X27. The seed only adds rows: whether it runs to its end or stops at
    a refused row, every user and every product that was stored before is
    stored unchanged after (a sold stock, a changed price or a password is
    not reset), and the orders and the idempotency cache are untouched. *)
Theorem seed_keeps_what_is_stored env users st :
  users ⊆ (Seed.main env users st).1.2 ∧
  products st ⊆ products (Seed.main env users st).2 ∧
  orders (Seed.main env users st).2 = orders st ∧
  recentOrders (Seed.main env users st).2 = recentOrders st ∧
  timers (Seed.main env users st).2 = timers st.
Proof.
  unfold Seed.main.
  destruct (Seed.upsert_admin env users) as [users'|] eqn:Ha; [|done].
  apply upsert_admin_grows in Ha as [Hsub _].
  pose proof (upsert_products_grow Seed.sample_products 0 env (products st))
    as Hgrow.
  destruct (Seed.upsert_products Seed.sample_products 0 env (products st))
    as [ok tbl].
  by repeat split.
Qed.

(** X28. Seeding is repeatable: after a seed that ran to its end, another
    seed, whatever ids and hash it draws, runs to its end as well and
    leaves every table as it is. *)
Theorem seed_again_changes_nothing env1 env2 users st users1 st1 :
  Seed.main env1 users st = (true, users1, st1) →
  Seed.main env2 users1 st1 = (true, users1, st1).
Proof.
  unfold Seed.main.
  destruct (Seed.upsert_admin env1 users) as [users'|] eqn:Ha; [|done].
  destruct (Seed.upsert_products Seed.sample_products 0 env1 (products st))
    as [ok tbl] eqn:Hp.
  intros [= -> -> <-].
  apply upsert_admin_grows in Ha as [_ Htaken].
  rewrite (upsert_admin_again _ _ Htaken).
  apply upsert_products_done in Hp.
  cbn [products set_products].
  rewrite (upsert_products_again _ _ _ _ Hp).
  by destruct st.
Qed.

Lemma seed_again_changes_nothing_witness :
  let first := Seed.main (demo_seed_env "a") demo_users demo_seeded_state in
  first.1.1 = true ∧
  products first.2 !! "prod-A" = Some (mkProduct "AirPods Pro" 89900 7 true) ∧
  size (products first.2) = 10%nat ∧
  Seed.main (demo_seed_env "b") first.1.2 first.2 = first.
Proof.
  assert (Seed.main (demo_seed_env "a") demo_users demo_seeded_state
          = (true,
             (Seed.main (demo_seed_env "a") demo_users demo_seeded_state).1.2,
             (Seed.main (demo_seed_env "a") demo_users demo_seeded_state).2))
    as Hfirst by (vm_compute; reflexivity).
  cbv zeta. split; [vm_compute; reflexivity|].
  split; [vm_compute; reflexivity|].
  split; [vm_compute; reflexivity|].
  rewrite Hfirst at 3.
  exact (seed_again_changes_nothing _ (demo_seed_env "b") _ _ _ _ Hfirst).
Defined.
